(** * DrawCraftAI: viewport, placed-image registry and generation proxy

    A shallow embedding of the parts of [src/app.ts] (class [DrawingApp])
    and [proxy-server.js] (route [/proxy/generate]) that carry the
    viewport, placed-image and proxy behaviour, together with the
    properties established about them.

    Numbers.  A JavaScript [number] is modelled as an exact rational
    ([Q]); comparisons are the boolean tests of [QArith] and equalities
    between computed coordinates are stated with [==].  Rounding of
    IEEE doubles, [NaN], infinities and division by zero are outside the
    model.

    Objects.  Every [PlacedImage] object is created by an object literal
    and pushed once, and [filter] and the spread only copy references, so
    no object occurs twice in [placedImages]; the in-place writes
    [image.selected = ...] are therefore modelled as a [map] over a list
    of records.

    Further parts.  After the three parts of the title come the sizes
    computed by [resizeImageFile], [exportToPDF] and
    [createAdvancedMockImage] (module [Sizing]), [adjustColor] (module
    [Color]), the routes [/proxy/reimagine], [/proxy/status] and
    [/proxy/fetch] (module [ProxyRoutes]), drawing with the tools, the
    navigation mode and the delete key (module [Sketch], where the Konva
    nodes live in a store and are named by their index in it), and the
    client of the proxy, [generateImages] and [reimagineImage] (module
    [Client]). *)

From Stdlib Require Import QArith Qround ZArith List String Ascii Bool.
From Stdlib Require Import Permutation Lia Lqa.
From Stdlib Require Import Decimal DecimalString DecimalPos DecimalZ.

Import ListNotations.
Local Open Scope Q_scope.

(** ** JavaScript helpers *)

Module JS.

(** [a < b] on numbers. *)
Definition ltb (a b : Q) : bool := negb (Qle_bool b a).

(** [a > b] on numbers. *)
Definition gtb (a b : Q) : bool := ltb b a.

(** [a >= b] on numbers. *)
Definition geb (a b : Q) : bool := Qle_bool b a.

(** [a <= b] on numbers. *)
Definition leb (a b : Q) : bool := Qle_bool a b.

(** [!n] for a number [n]: only zero is falsy. *)
Definition falsy_number (n : Q) : bool := Qeq_bool n 0.

(** Truthiness of a string: every string but the empty one. *)
Definition truthy_string (s : string) : bool :=
  match s with
  | EmptyString => false
  | String _ _ => true
  end.

(** Truthiness of a [string | null | undefined] value. *)
Definition truthy (o : option string) : bool :=
  match o with
  | Some s => truthy_string s
  | None => false
  end.

(** [a !== b] on strings. *)
Definition strict_neq (a b : string) : bool := negb (String.eqb a b).

(** [`${n}`] for an integral number. *)
Definition number_to_string (n : Z) : string :=
  NilZero.string_of_int (Z.to_int n).

(** [s.includes(sub)]. *)
Definition includes (s sub : string) : bool :=
  match String.index 0 sub s with
  | Some _ => true
  | None => false
  end.

End JS.

(** ** Data model of [app.ts] *)

(** [interface Point]. *)
Record Point : Type := mkPoint {
  pt_x : Q;
  pt_y : Q
}.

(** [interface PlacedImage]. *)
Record PlacedImage : Type := mkPlacedImage {
  img_id : string;
  img_url : string;
  img_x : Q;
  img_y : Q;
  img_width : Q;
  img_height : Q;
  img_selected : bool;
  img_originalAspectRatio : option Q
}.

(** What the code reads of an [HTMLImageElement]. *)
Record HTMLImage : Type := mkHTMLImage {
  naturalWidth : Q;
  naturalHeight : Q
}.

(** What the code reads of [getBoundingClientRect()]. *)
Record DOMRect : Type := mkDOMRect {
  rect_width : Q;
  rect_height : Q
}.

(** The part of a [Konva.Stage] the code reads and writes. *)
Module Konva.

Record Stage : Type := mkStage {
  x : Q;
  y : Q;
  width : Q;
  height : Q;
  draggable : bool
}.

(** [new Konva.Stage({container, width, height, draggable})]: a node
    whose position is not given starts at the origin. *)
Definition newStage (w h : Q) (d : bool) : Stage :=
  mkStage 0 0 w h d.

Definition set_x (v : Q) (s : Stage) : Stage :=
  mkStage v (y s) (width s) (height s) (draggable s).

Definition set_y (v : Q) (s : Stage) : Stage :=
  mkStage (x s) v (width s) (height s) (draggable s).

Definition set_width (v : Q) (s : Stage) : Stage :=
  mkStage (x s) (y s) v (height s) (draggable s).

Definition set_height (v : Q) (s : Stage) : Stage :=
  mkStage (x s) (y s) (width s) v (draggable s).

(** [stage.position({x, y})]. *)
Definition set_position (p : Point) (s : Stage) : Stage :=
  mkStage (pt_x p) (pt_y p) (width s) (height s) (draggable s).

(** [stage.position()]: a fresh [{x, y}] snapshot. *)
Definition position (s : Stage) : Point := mkPoint (x s) (y s).

End Konva.

(** The fields of [class DrawingApp] that the modelled methods touch.
    [stage] is [None] until [initializeKonva] has run. *)
Record DrawingApp : Type := mkApp {
  canvas_width : Q;
  canvas_height : Q;
  stage : option Konva.Stage;
  virtualCanvasWidth : Q;
  virtualCanvasHeight : Q;
  placedImages : list PlacedImage;
  selectedImageId : option string;
  selectedImageIndex : Z;
  dragOffsetX : Q;
  dragOffsetY : Q;
  currentTool : string;
  imageCache : list (string * HTMLImage)
}.

(** Field initialisers of the class. *)
Definition initialFields : DrawingApp :=
  {| canvas_width := 0;
     canvas_height := 0;
     stage := None;
     virtualCanvasWidth := 3000;
     virtualCanvasHeight := 3000;
     placedImages := [];
     selectedImageId := None;
     selectedImageIndex := (-1)%Z;
     dragOffsetX := 0;
     dragOffsetY := 0;
     currentTool := "pencil";
     imageCache := [] |}.

Definition with_stage (s : option Konva.Stage) (a : DrawingApp) : DrawingApp :=
  {| canvas_width := canvas_width a;
     canvas_height := canvas_height a;
     stage := s;
     virtualCanvasWidth := virtualCanvasWidth a;
     virtualCanvasHeight := virtualCanvasHeight a;
     placedImages := placedImages a;
     selectedImageId := selectedImageId a;
     selectedImageIndex := selectedImageIndex a;
     dragOffsetX := dragOffsetX a;
     dragOffsetY := dragOffsetY a;
     currentTool := currentTool a;
     imageCache := imageCache a |}.

Definition with_canvas (w h : Q) (a : DrawingApp) : DrawingApp :=
  {| canvas_width := w;
     canvas_height := h;
     stage := stage a;
     virtualCanvasWidth := virtualCanvasWidth a;
     virtualCanvasHeight := virtualCanvasHeight a;
     placedImages := placedImages a;
     selectedImageId := selectedImageId a;
     selectedImageIndex := selectedImageIndex a;
     dragOffsetX := dragOffsetX a;
     dragOffsetY := dragOffsetY a;
     currentTool := currentTool a;
     imageCache := imageCache a |}.

Definition with_placedImages (l : list PlacedImage) (a : DrawingApp) : DrawingApp :=
  {| canvas_width := canvas_width a;
     canvas_height := canvas_height a;
     stage := stage a;
     virtualCanvasWidth := virtualCanvasWidth a;
     virtualCanvasHeight := virtualCanvasHeight a;
     placedImages := l;
     selectedImageId := selectedImageId a;
     selectedImageIndex := selectedImageIndex a;
     dragOffsetX := dragOffsetX a;
     dragOffsetY := dragOffsetY a;
     currentTool := currentTool a;
     imageCache := imageCache a |}.

Definition with_selectedImageId (o : option string) (a : DrawingApp) : DrawingApp :=
  {| canvas_width := canvas_width a;
     canvas_height := canvas_height a;
     stage := stage a;
     virtualCanvasWidth := virtualCanvasWidth a;
     virtualCanvasHeight := virtualCanvasHeight a;
     placedImages := placedImages a;
     selectedImageId := o;
     selectedImageIndex := selectedImageIndex a;
     dragOffsetX := dragOffsetX a;
     dragOffsetY := dragOffsetY a;
     currentTool := currentTool a;
     imageCache := imageCache a |}.

Definition with_imageCache (c : list (string * HTMLImage)) (a : DrawingApp) : DrawingApp :=
  {| canvas_width := canvas_width a;
     canvas_height := canvas_height a;
     stage := stage a;
     virtualCanvasWidth := virtualCanvasWidth a;
     virtualCanvasHeight := virtualCanvasHeight a;
     placedImages := placedImages a;
     selectedImageId := selectedImageId a;
     selectedImageIndex := selectedImageIndex a;
     dragOffsetX := dragOffsetX a;
     dragOffsetY := dragOffsetY a;
     currentTool := currentTool a;
     imageCache := c |}.

(** ** Viewport: [initializeCanvas], [initializeKonva], [limitDragBoundaries] *)

(** The closure [updateCanvasSize] of [initializeCanvas].  [container] is
    the bounding rectangle of [#canvas-container], [None] when the element
    is missing.  The canvas element keeps the rectangle's size (the DOM's
    coercion of the attribute to an integer is not modelled). *)
Definition updateCanvasSize (container : option DOMRect) (a : DrawingApp)
  : DrawingApp :=
  match container with
  | None => a
  | Some rect =>
      let a1 := with_canvas (rect_width rect) (rect_height rect) a in
      match stage a1 with
      | None => a1
      | Some s =>
          let s1 := Konva.set_width (rect_width rect) s in
          let s2 := Konva.set_height (rect_height rect) s1 in
          if JS.falsy_number (Konva.x s2) && JS.falsy_number (Konva.y s2)
          then
            let offsetX := (virtualCanvasWidth a1 - rect_width rect) / 2 in
            let offsetY := (virtualCanvasHeight a1 - rect_height rect) / 2 in
            with_stage
              (Some (Konva.set_position (mkPoint (- offsetX) (- offsetY)) s2))
              a1
          else with_stage (Some s2) a1
      end
  end.

(** [initializeCanvas]: sizes the canvas once; the same closure is then
    registered as the window's resize listener ([onResize]). *)
Definition initializeCanvas (container : option DOMRect) (a : DrawingApp)
  : DrawingApp :=
  updateCanvasSize container a.

Definition onResize (container : option DOMRect) (a : DrawingApp)
  : DrawingApp :=
  updateCanvasSize container a.

(** [initializeKonva]: creates the stage with the canvas dimensions.
    [container] tells whether [#canvas-container] exists. *)
Definition initializeKonva (container : bool) (a : DrawingApp) : DrawingApp :=
  if container
  then with_stage
         (Some (Konva.newStage (canvas_width a) (canvas_height a) false)) a
  else a.

(** The viewport part of the constructor: [initializeCanvas()] runs before
    [initializeKonva()]. *)
Definition constructor (container : option DOMRect) : DrawingApp :=
  let a1 := initializeCanvas container initialFields in
  initializeKonva (match container with Some _ => true | None => false end) a1.

(** [limitDragBoundaries] on the stage.  [pos] is read once; each of the
    four tests compares that snapshot. *)
Definition limitStage (vw vh : Q) (s : Konva.Stage) : Konva.Stage :=
  let pos := Konva.position s in
  let stageWidth := Konva.width s in
  let stageHeight := Konva.height s in
  let maxX := 0 in
  let maxY := 0 in
  let minX := - (vw - stageWidth) in
  let minY := - (vh - stageHeight) in
  let s1 := if JS.gtb (pt_x pos) maxX then Konva.set_x maxX s else s in
  let s2 := if JS.gtb (pt_y pos) maxY then Konva.set_y maxY s1 else s1 in
  let s3 := if JS.ltb (pt_x pos) minX then Konva.set_x minX s2 else s2 in
  let s4 := if JS.ltb (pt_y pos) minY then Konva.set_y minY s3 else s3 in
  s4.

Definition limitDragBoundaries (a : DrawingApp) : DrawingApp :=
  match stage a with
  | None => a
  | Some s =>
      with_stage
        (Some (limitStage (virtualCanvasWidth a) (virtualCanvasHeight a) s)) a
  end.

(** A pan step: Konva moves the dragged stage by [delta] and fires
    [dragmove], whose handler is [limitDragBoundaries]. *)
Definition moveStage (delta : Point) (s : Konva.Stage) : Konva.Stage :=
  Konva.set_position
    (mkPoint (Konva.x s + pt_x delta) (Konva.y s + pt_y delta)) s.

Definition dragmove (delta : Point) (a : DrawingApp) : DrawingApp :=
  match stage a with
  | None => a
  | Some s => limitDragBoundaries (with_stage (Some (moveStage delta s)) a)
  end.

(** The pan offset of the application, [(0, 0)] while there is no stage. *)
Definition panOffset (a : DrawingApp) : Point :=
  match stage a with
  | Some s => Konva.position s
  | None => mkPoint 0 0
  end.

(** The viewport invariant of the specification. *)
Definition in_bounds (vw vh : Q) (s : Konva.Stage) : Prop :=
  0 <= - Konva.x s <= vw - Konva.width s /\
  0 <= - Konva.y s <= vh - Konva.height s.

(** ** Placed images: [placeImageOnCanvas], [selectImageAt],
       [deselectAllImages], [deleteSelectedImage] *)

Definition set_selected (b : bool) (i : PlacedImage) : PlacedImage :=
  {| img_id := img_id i;
     img_url := img_url i;
     img_x := img_x i;
     img_y := img_y i;
     img_width := img_width i;
     img_height := img_height i;
     img_selected := b;
     img_originalAspectRatio := img_originalAspectRatio i |}.

(** [arr[i] = v] for an index inside the array. *)
Fixpoint set_nth {A : Type} (i : nat) (v : A) (l : list A) : list A :=
  match l, i with
  | [], _ => []
  | _ :: t, O => v :: t
  | h :: t, S j => h :: set_nth j v t
  end.

(** [const maxSize = 300]. *)
Definition maxSize : Q := 300.

(** The size computed by the closure [placeImage]: [(width, height)]. *)
Definition placedSize (img : HTMLImage) : Q * Q :=
  let aspectRatio := naturalWidth img / naturalHeight img in
  let width := maxSize in
  let height := maxSize / aspectRatio in
  if JS.gtb height maxSize
  then (maxSize * aspectRatio, maxSize)
  else (width, height).

(** [`img_${Date.now()}_${Math.floor(Math.random() * 1000)}`]; [now] is the
    clock reading and [random] the draw of [Math.random()]. *)
Definition newId (now : Z) (random : Q) : string :=
  ("img_" ++ JS.number_to_string now ++ "_"
     ++ JS.number_to_string (Qfloor (random * 1000)))%string.

(** The object literal built by the closure [placeImage]. *)
Definition newPlacedImage (img : HTMLImage) (imageUrl : string)
    (position : Point) (now : Z) (random : Q) : PlacedImage :=
  let '(width, height) := placedSize img in
  let x := pt_x position - width / 2 in
  let y := pt_y position - height / 2 in
  {| img_id := newId now random;
     img_url := imageUrl;
     img_x := x;
     img_y := y;
     img_width := width;
     img_height := height;
     img_selected := false;
     img_originalAspectRatio := None |}.

(** The closure [placeImage]: [this.placedImages.push(placedImage)]. *)
Definition placeImage (img : HTMLImage) (imageUrl : string)
    (position : Point) (now : Z) (random : Q) (a : DrawingApp) : DrawingApp :=
  with_placedImages
    (placedImages a ++ [newPlacedImage img imageUrl position now random]) a.

(** [Map.get] and [Map.set] on the image cache. *)
Fixpoint cache_get (k : string) (c : list (string * HTMLImage))
  : option HTMLImage :=
  match c with
  | [] => None
  | (k', v) :: t => if String.eqb k k' then Some v else cache_get k t
  end.

Fixpoint cache_set (k : string) (v : HTMLImage) (c : list (string * HTMLImage))
  : list (string * HTMLImage) :=
  match c with
  | [] => [(k, v)]
  | (k', v') :: t =>
      if String.eqb k k' then (k, v) :: t else (k', v') :: cache_set k v t
  end.

(** How the browser answers [img.src = imageUrl] for an image that is not
    cached yet. *)
Inductive LoadEvent : Type :=
| onload (img : HTMLImage)
| onerror.

(** [placeImageOnCanvas].  A cached image is placed at once; otherwise the
    placement happens in the [onload] handler, and [onerror] only alerts.
    The load and its handler are taken as one step. *)
Definition placeImageOnCanvas (imageUrl : string) (position : Point)
    (load : LoadEvent) (now : Z) (random : Q) (a : DrawingApp) : DrawingApp :=
  match cache_get imageUrl (imageCache a) with
  | Some img => placeImage img imageUrl position now random a
  | None =>
      match load with
      | onload img =>
          placeImage img imageUrl position now random
            (with_imageCache (cache_set imageUrl img (imageCache a)) a)
      | onerror => a
      end
  end.

(** The test of the loop of [selectImageAt]. *)
Definition hit (x y : Q) (img : PlacedImage) : bool :=
  JS.geb x (img_x img) &&
  JS.leb x (img_x img + img_width img) &&
  JS.geb y (img_y img) &&
  JS.leb y (img_y img + img_height img).

(** The body of the [if] of [selectImageAt] for the image [img] found at
    index [i]. *)
Definition selectHit (x y : Q) (i : nat) (img : PlacedImage) (a : DrawingApp)
  : DrawingApp :=
  (* this.placedImages.forEach(image => { image.selected = false; }) *)
  let cleared := map (set_selected false) (placedImages a) in
  (* img.selected = true *)
  let img' := set_selected true img in
  let marked := set_nth i img' cleared in
  {| canvas_width := canvas_width a;
     canvas_height := canvas_height a;
     stage := stage a;
     virtualCanvasWidth := virtualCanvasWidth a;
     virtualCanvasHeight := virtualCanvasHeight a;
     placedImages :=
       filter (fun image => JS.strict_neq (img_id image) (img_id img')) marked
         ++ [img'];
     selectedImageId := Some (img_id img');
     selectedImageIndex := (-1)%Z;
     dragOffsetX := x - img_x img';
     dragOffsetY := y - img_y img';
     currentTool := "select";
     imageCache := imageCache a |}.

(** The loop [for (let i = length - 1; i >= 0; i--)]: [n] is [i + 1].  The
    index is always inside the array, so the [None] case is never taken. *)
Fixpoint selectLoop (x y : Q) (a : DrawingApp) (n : nat) : bool * DrawingApp :=
  match n with
  | O => (false, a)
  | S i =>
      match nth_error (placedImages a) i with
      | Some img =>
          if hit x y img then (true, selectHit x y i img a)
          else selectLoop x y a i
      | None => selectLoop x y a i
      end
  end.

Definition selectImageAt (x y : Q) (a : DrawingApp) : bool * DrawingApp :=
  selectLoop x y a (List.length (placedImages a)).

(** [deselectAllImages]. *)
Definition deselectAllImages (a : DrawingApp) : DrawingApp :=
  with_selectedImageId None
    (with_placedImages (map (set_selected false) (placedImages a)) a).

(** [deleteSelectedImage]. *)
Definition deleteSelectedImage (a : DrawingApp) : DrawingApp :=
  match selectedImageId a with
  | Some sid =>
      if JS.truthy_string sid
      then
        with_selectedImageId None
          (with_placedImages
             (filter (fun img => JS.strict_neq (img_id img) sid)
                (placedImages a)) a)
      else a
  | None => a
  end.

(** *** Vocabulary of the properties *)

(** The point lies in the box of the image, bounds included. *)
Definition inside (x y : Q) (img : PlacedImage) : Prop :=
  img_x img <= x <= img_x img + img_width img /\
  img_y img <= y <= img_y img + img_height img.

(** The filter of [selectImageAt] and [deleteSelectedImage]: the images
    whose id differs from that of [img]. *)
Definition keep_others (img : PlacedImage) : PlacedImage -> bool :=
  fun image => JS.strict_neq (img_id image) (img_id img).

(** Number of images whose [selected] flag is set. *)
Definition selectedCount (l : list PlacedImage) : nat :=
  List.length (filter img_selected l).

Definition atMostOneSelected (a : DrawingApp) : Prop :=
  (selectedCount (placedImages a) <= 1)%nat.

Definition ids (l : list PlacedImage) : list string := map img_id l.

(** [selectedImageId] agrees with the flags: no flag is set while it is
    [null]; otherwise it is a non-empty id of the array and the flagged
    images are those carrying it. *)
Definition coherent (a : DrawingApp) : Prop :=
  match selectedImageId a with
  | None => forall img, In img (placedImages a) -> img_selected img = false
  | Some sid =>
      sid <> EmptyString /\ In sid (ids (placedImages a)) /\
      forall img, In img (placedImages a) ->
                  (img_selected img = true <-> img_id img = sid)
  end.

(** Well-formed registry: distinct non-empty ids and coherent selection. *)
Definition registry_wf (a : DrawingApp) : Prop :=
  NoDup (ids (placedImages a)) /\
  (forall img, In img (placedImages a) -> img_id img <> EmptyString) /\
  coherent a.


(** One event on the registry.  A placement step is one whose id is not
    in use. *)
Inductive step : DrawingApp -> DrawingApp -> Prop :=
| step_place (a : DrawingApp) (url : string) (pos : Point) (load : LoadEvent)
    (now : Z) (rnd : Q) :
    ~ In (newId now rnd) (ids (placedImages a)) ->
    step a (placeImageOnCanvas url pos load now rnd a)
| step_select (a : DrawingApp) (x y : Q) :
    step a (snd (selectImageAt x y a))
| step_deselect (a : DrawingApp) :
    step a (deselectAllImages a)
| step_delete (a : DrawingApp) :
    step a (deleteSelectedImage a).

(** The states the registry reaches from the initial one. *)
Inductive reachable : DrawingApp -> Prop :=
| reachable_initial : reachable initialFields
| reachable_step (a b : DrawingApp) : reachable a -> step a b -> reachable b.

(** ** The proxy: [app.post('/proxy/generate', ...)] of [proxy-server.js] *)

Module Proxy.

(** The JSON values the route sends. *)
#[local] Unset Elimination Schemes.
Inductive JSON : Type :=
| JString (s : string)
| JBool (b : bool)
| JNumber (n : Z)
| JObject (fields : list (string * JSON)).
#[local] Set Elimination Schemes.

(** What [res.status(...).json(...)] sends. *)
Record Response : Type := mkResponse {
  status : Z;
  body : JSON
}.

(** Outcome of reading a body ([response.text()], [response.buffer()]). *)
Inductive Read (A : Type) : Type :=
| read_ok (v : A)
| read_error (message : string).
Arguments read_ok {A} v.
Arguments read_error {A} message.

(** The upstream response as [node-fetch] presents it. *)
Record FetchResponse : Type := mkFetchResponse {
  ok : bool;
  upstream_status : Z;
  content_type : option string;
  text : Read string;
  buffer : Read (list Byte.byte)
}.




(** The [field] listener, run over all the events: the last [prompt]
    field wins, and [prompt] starts as [''] . *)
Definition on_field (prompt : string) (f : string * string) : string :=
  let '(name, val) := f in
  if String.eqb name "prompt" then val else prompt.

Definition parse_prompt (fs : list (string * string)) : string :=
  fold_left on_field fs EmptyString.

(** [contentType && contentType.includes('image')]. *)
Definition is_image (contentType : option string) : bool :=
  match contentType with
  | Some ct => JS.truthy_string ct && JS.includes ct "image"
  | None => false
  end.

Section Handler.

(** [Buffer.prototype.toString('base64')]. *)
Variable base64 : list Byte.byte -> string.

(** The part of the [finish] listener that follows [await fetch]. *)
Definition on_response (response : FetchResponse) : Response :=
  if negb (ok response)
  then
    let errorMsg :=
      match text response with
      | read_ok errorText => errorText
      | read_error _ => "Failed to generate image"%string
      end in
    mkResponse (upstream_status response)
      (JObject [("error"%string, JString "Error from Clipdrop API");
                ("details"%string, JString errorMsg);
                ("status"%string, JNumber (upstream_status response))])
  else
    let contentType := content_type response in
    if is_image contentType
    then
      match buffer response with
      | read_ok imageBuffer =>
          mkResponse 200
            (JObject [("success"%string, JBool true);
                      ("image"%string, JString (base64 imageBuffer))])
      | read_error m =>
          mkResponse 500
            (JObject [("error"%string, JString "Failed to process request");
                      ("details"%string, JString m)])
      end
    else
      match text response with
      | read_ok t =>
          mkResponse 502
            (JObject [("error"%string,
                       JString "Unexpected response type from Clipdrop API");
                      ("details"%string, JString t)])
      | read_error m =>
          mkResponse 500
            (JObject [("error"%string, JString "Failed to process request");
                      ("details"%string, JString m)])
      end.


End Handler.


(** The value of a key of a JSON object. *)
Fixpoint lookup (k : string) (fs : list (string * JSON)) : option JSON :=
  match fs with
  | [] => None
  | (k', v) :: t => if String.eqb k k' then Some v else lookup k t
  end.


(** The request has a [prompt] field. *)
Definition has_prompt_field (fs : list (string * string)) : Prop :=
  In "prompt"%string (map fst fs).

End Proxy.

(** ** Sizing helpers: [resizeImageFile], [exportToPDF],
       [createAdvancedMockImage] *)

Module Sizing.

(** [Math.round]: the nearest integer, a half going up. *)
Definition Math_round (q : Q) : Z := Qfloor (q + (1 # 2)).


(** What [img.onload] of [resizeImageFile] decides for an image of
    [width] by [height]: hand back the original file, or draw the image on
    a canvas of the new size. *)
Inductive Resize : Type :=
| keep_original
| resize_to (width height : Q).

Definition resizedDimensions (width height maxWidth maxHeight : Q) : Resize :=
  if JS.leb width maxWidth && JS.leb height maxHeight
  then keep_original
  else if JS.gtb width height && JS.gtb width maxWidth
  then resize_to maxWidth
         (inject_Z (Math_round ((height * maxWidth) / width)))
  else if JS.gtb height maxHeight
  then resize_to (inject_Z (Math_round ((width * maxHeight) / height)))
         maxHeight
  else resize_to width height.

(** What the browser does with the file: the outcome of the [FileReader],
    of loading the image, of [getContext('2d')] and of [toBlob]. *)
Inductive FileRead : Type :=
| reader_error
| read_not_a_string
| read_data_url.

Inductive ImageLoad : Type :=
| image_loaded (width height : Q)
| image_failed.

Record Browser : Type := mkBrowser {
  file_read : FileRead;
  image_load : ImageLoad;
  has_context : bool;
  has_blob : bool
}.

(** How the promise of [resizeImageFile] settles. *)
Inductive Settled : Type :=
| resolve_original
| resolve_resized (width height : Q)
| reject (message : string).

Definition resizeImageFile (env : Browser) (maxWidth maxHeight : Q) : Settled :=
  match file_read env with
  | reader_error => reject "Failed to read image file"
  | read_not_a_string => reject "Failed to read image file"
  | read_data_url =>
      match image_load env with
      | image_failed => reject "Failed to load image for resizing"
      | image_loaded width height =>
          match resizedDimensions width height maxWidth maxHeight with
          | keep_original => resolve_original
          | resize_to w h =>
              if negb (has_context env)
              then reject "Could not get canvas context"
              else if negb (has_blob env)
              then reject "Failed to create blob from canvas"
              else resolve_resized w h
          end
      end
  end.


(** The title drawn by [createAdvancedMockImage]: long prompts are cut. *)
Definition displayPrompt (prompt : string) : string :=
  if (50 <? String.length prompt)%nat
  then (String.substring 0 47 prompt ++ "...")%string
  else prompt.

End Sizing.

(** ** Colours: [adjustColor] *)

Module Color.

(** [color.replace('#', '')]: the first [#] is removed. *)
Fixpoint remove_first_hash (s : string) : string :=
  match s with
  | EmptyString => EmptyString
  | String c t =>
      if Ascii.eqb c "#" then t else String c (remove_first_hash t)
  end.

(** [s.substring(from, to)] for [from <= to]. *)
Definition substring (from to : nat) (s : string) : string :=
  String.substring from (to - from) s.

(** The value of a character as a digit in base 16: the digits from 0 to
    9, the letters from a to f and from A to F. *)
Definition hex_value (c : ascii) : option Z :=
  let n := Z.of_nat (nat_of_ascii c) in
  if ((48 <=? n) && (n <=? 57))%Z then Some (n - 48)%Z
  else if ((97 <=? n) && (n <=? 102))%Z then Some (n - 87)%Z
  else if ((65 <=? n) && (n <=? 70))%Z then Some (n - 55)%Z
  else None.

(** The white space that [parseInt] skips, among the characters below
    256: tab, line feed, vertical tab, form feed, carriage return, space
    and no-break space. *)
Definition is_white_space (c : ascii) : bool :=
  let n := nat_of_ascii c in
  ((9 <=? n) && (n <=? 13) || (n =? 32) || (n =? 160))%nat.

Fixpoint skip_white_space (s : string) : string :=
  match s with
  | EmptyString => EmptyString
  | String c t => if is_white_space c then skip_white_space t else s
  end.

(** The digits of [parseInt]: the longest run of digits, [None] when
    there is none. *)
Fixpoint scan_digits (s : string) (acc : option Z) : option Z :=
  match s with
  | EmptyString => acc
  | String c t =>
      match hex_value c with
      | Some v =>
          scan_digits t
            (Some (16 * match acc with Some n => n | None => 0 end + v)%Z)
      | None => acc
      end
  end.

(** [parseInt(s, 16)]; [None] stands for [NaN]. *)
Definition parseInt16 (s : string) : option Z :=
  let s1 := skip_white_space s in
  let '(sign, s2) :=
    match s1 with
    | String "-" t => ((-1)%Z, t)
    | String "+" t => (1%Z, t)
    | _ => (1%Z, s1)
    end in
  let s3 :=
    match s2 with
    | String "0" (String "x" t) => t
    | String "0" (String "X" t) => t
    | _ => s2
    end in
  match scan_digits s3 None with
  | Some n => Some (sign * n)%Z
  | None => None
  end.

(** [const clamp = (val) => Math.min(255, Math.max(0, val))]; [NaN] stays
    [NaN]. *)
Definition clamp (val : option Z) : option Z :=
  match val with
  | Some v => Some (Z.min 255 (Z.max 0 v))
  | None => None
  end.

(** [r + amount]. *)
Definition plus (r : option Z) (amount : Z) : option Z :=
  match r with
  | Some v => Some (v + amount)%Z
  | None => None
  end.

Definition hex_digit (n : Z) : ascii :=
  match n with
  | 0 => "0" | 1 => "1" | 2 => "2" | 3 => "3" | 4 => "4" | 5 => "5"
  | 6 => "6" | 7 => "7" | 8 => "8" | 9 => "9" | 10 => "a" | 11 => "b"
  | 12 => "c" | 13 => "d" | 14 => "e" | _ => "f"
  end%Z%char.

Fixpoint hex_digits (fuel : nat) (n : Z) (acc : string) : string :=
  match fuel with
  | O => acc
  | S f =>
      let acc' := String (hex_digit (n mod 16)) acc in
      if (n / 16 =? 0)%Z then acc' else hex_digits f (n / 16) acc'
  end.

(** [n.toString(16)] for an integer, and for [NaN]. *)
Definition toString16 (val : option Z) : string :=
  match val with
  | None => "NaN"
  | Some n =>
      if (n <? 0)%Z
      then String "-" (hex_digits (S (Z.to_nat (Z.log2 (- n)))) (- n) "")
      else hex_digits (S (Z.to_nat (Z.log2 n))) n ""
  end.

(** [padZero]. *)
Definition padZero (str : string) : string :=
  if (String.length str <? 2)%nat then String "0" str else str.

(** The three channels read by [adjustColor]. *)
Definition channels (color : string) : option Z * option Z * option Z :=
  let hex := remove_first_hash color in
  let r := parseInt16 (substring 0 2 hex) in
  let g := parseInt16 (substring 2 4 hex) in
  let b := parseInt16 (substring 4 6 hex) in
  (r, g, b).

(** [adjustColor(color, amount)] for an integral [amount]. *)
Definition adjustColor (color : string) (amount : Z) : string :=
  let '(r, g, b) := channels color in
  let newR := clamp (plus r amount) in
  let newG := clamp (plus g amount) in
  let newB := clamp (plus b amount) in
  (String "#" (padZero (toString16 newR) ++ padZero (toString16 newG)
                 ++ padZero (toString16 newB)))%string.

(** A colour written as [#] and six hexadecimal digits. *)
Definition is_hex (c : ascii) : bool :=
  match hex_value c with Some _ => true | None => false end.

Definition valid_color (s : string) : bool :=
  match s with
  | String h (String a (String b (String c (String d
      (String e (String f EmptyString)))))) =>
      Ascii.eqb h "#" &&
      is_hex a && is_hex b && is_hex c && is_hex d && is_hex e && is_hex f
  | _ => false
  end.

(** The same with the letters in lower case, as [toString(16)] writes
    them. *)
Definition is_lower_hex (c : ascii) : bool :=
  is_hex c && negb ((65 <=? nat_of_ascii c) && (nat_of_ascii c <=? 70))%nat.

Definition lower_color (s : string) : bool :=
  match s with
  | String h (String a (String b (String c (String d
      (String e (String f EmptyString)))))) =>
      Ascii.eqb h "#" &&
      is_lower_hex a && is_lower_hex b && is_lower_hex c &&
      is_lower_hex d && is_lower_hex e && is_lower_hex f
  | _ => false
  end.

(** All the hexadecimal digits, and the numbers from 0 to 255. *)
Definition hex_chars : list ascii :=
  list_ascii_of_string "0123456789abcdefABCDEF".

Definition byte_values : list Z := map Z.of_nat (seq 0 256).

(** The clamp on integers. *)
Definition clampZ (v : Z) : Z := Z.min 255 (Z.max 0 v).

(** What [adjustColor] writes for three channels. *)
Definition render (r g b : option Z) : string :=
  (String "#" (padZero (toString16 r) ++ padZero (toString16 g)
                 ++ padZero (toString16 b)))%string.

End Color.

(** ** The other routes of [proxy-server.js]: [/proxy/reimagine],
       [/proxy/status/:processId], [/proxy/fetch/:processId] *)

Module ProxyRoutes.

Import Proxy.





Section Routes.

Variable base64 : list Byte.byte -> string.

(** The part of the [finish] listener of [/proxy/reimagine] that follows
    [await fetch]. *)
Definition on_reimagine_response (response : FetchResponse) : Response :=
  if negb (ok response)
  then
    let errorMsg :=
      match text response with
      | read_ok errorText => errorText
      | read_error _ => "Failed to reimagine image"%string
      end in
    mkResponse (upstream_status response)
      (JObject [("error"%string, JString "Error from Clipdrop API");
                ("details"%string, JString errorMsg);
                ("status"%string, JNumber (upstream_status response))])
  else
    let contentType := content_type response in
    if is_image contentType
    then
      match buffer response with
      | read_ok reimaginedImageBuffer =>
          mkResponse 200
            (JObject [("success"%string, JBool true);
                      ("image"%string,
                       JString (base64 reimaginedImageBuffer))])
      | read_error m =>
          mkResponse 500
            (JObject [("error"%string, JString "Failed to process request");
                      ("details"%string, JString m)])
      end
    else
      match text response with
      | read_ok t =>
          mkResponse 502
            (JObject [("error"%string,
                       JString "Unexpected response type from Clipdrop API");
                      ("details"%string, JString t)])
      | read_error m =>
          mkResponse 500
            (JObject [("error"%string, JString "Failed to process request");
                      ("details"%string, JString m)])
      end.


End Routes.

(** A [GET] request: its headers, under their lower-case names, and the
    [processId] of the path. *)
Record GetRequest : Type := mkGetRequest {
  headers : list (string * string);
  processId : string
}.

(** [req.headers[name]]. *)
Fixpoint header (name : string) (hs : list (string * string)) : option string :=
  match hs with
  | [] => None
  | (n, v) :: t => if String.eqb name n then Some v else header name t
  end.

(** The answer of MonsterAPI as [node-fetch] presents it; [json] is the
    outcome of [response.json()]. *)
Record JsonResponse : Type := mkJsonResponse {
  json_ok : bool;
  json_status : Z;
  json : Read JSON
}.

Inductive JsonFetch : Type :=
| json_resolved (r : JsonResponse)
| json_rejected (message : string).

(** [app.get('/proxy/status/:processId', ...)]. *)
Definition status_route (req : GetRequest) (upstream : JsonFetch) : Response :=
  let API_KEY := header "x-api-key" (headers req) in
  if negb (JS.truthy API_KEY)
  then mkResponse 401
         (JObject [("error"%string, JString "API key is required")])
  else
    match upstream with
    | json_rejected m =>
        mkResponse 500
          (JObject [("error"%string, JString "Failed to check status");
                    ("details"%string, JString m)])
    | json_resolved response =>
        match json response with
        | read_error m =>
            mkResponse 500
              (JObject [("error"%string, JString "Failed to check status");
                        ("details"%string, JString m)])
        | read_ok responseData =>
            if negb (json_ok response)
            then mkResponse (json_status response)
                   (JObject [("error"%string,
                              JString "Error from MonsterAPI status check");
                             ("details"%string, responseData);
                             ("status"%string,
                              JNumber (json_status response))])
            else mkResponse 200 responseData
        end
    end.

(** [app.get('/proxy/fetch/:processId', ...)]. *)
Definition fetch_route (req : GetRequest) (upstream : JsonFetch) : Response :=
  let API_KEY := header "monster-api-key" (headers req) in
  if negb (JS.truthy API_KEY)
  then mkResponse 401
         (JObject [("error"%string, JString "API key is required")])
  else
    match upstream with
    | json_rejected m =>
        mkResponse 500
          (JObject [("error"%string, JString "Failed to fetch results");
                    ("details"%string, JString m)])
    | json_resolved response =>
        match json response with
        | read_error m =>
            mkResponse 500
              (JObject [("error"%string, JString "Failed to fetch results");
                        ("details"%string, JString m)])
        | read_ok responseData =>
            if negb (json_ok response)
            then mkResponse (json_status response)
                   (JObject [("error"%string,
                              JString "Error from MonsterAPI fetch");
                             ("details"%string, responseData);
                             ("status"%string,
                              JNumber (json_status response))])
            else mkResponse 200 responseData
        end
    end.


End ProxyRoutes.

(** ** Drawing: [startDrawing], [draw], [stopDrawing], the stage
       listeners of [addEventListeners], [toggleNavigationMode],
       [handleKeyDown], [clearCanvas]

    The nodes live in a store ([nodes]) that only grows; a reference to a
    node is its index.  [shapeLayer] lists the children of the layer in
    their order (the transformer, a child too, is left out), and
    [transformer] the nodes handed to [transformer.nodes(...)].
    Destroying a node removes it from the layer; the object stays in the
    store.

    An accessor is only modelled on the kind of node the code makes for
    the tool at hand ([radiusX] on an ellipse, [width] and [height] on a
    rectangle, [points] on a pencil line).  Where the code would call it
    on another node, which takes a change of tool in the middle of a
    stroke, the step is [None]: outside the model. *)

Module Sketch.

Inductive Geometry : Type :=
| Ellipse (x y radiusX radiusY : Q)
| Rect (x y width height : Q)
| Line (points : list Q)
| Text (x y : Q) (text : string).

Record Node : Type := mkNode {
  geometry : Geometry;
  name : string;
  stroke : string;
  strokeWidth : Q;
  draggable : bool;
  listening : bool
}.

(** [isDrawing], [startPoint], [activeShape], [drawingPoints]. *)
Record Pen : Type := mkPen {
  isDrawing : bool;
  startPoint : Point;
  activeShape : option nat;
  drawingPoints : list Q
}.

(** [currentTool], [currentColor], [currentSize], [isNavigationMode],
    [stage.draggable()], [_navigationEventsAttached], how many times the
    cursor listeners were registered, [document.body.style.cursor]. *)
Record Mode : Type := mkMode {
  currentTool : string;
  currentColor : string;
  currentSize : Q;
  isNavigationMode : bool;
  stageDraggable : bool;
  navigationEventsAttached : bool;
  cursorListeners : nat;
  cursor : string
}.

Record Scene : Type := mkScene {
  nodes : list Node;
  shapeLayer : list nat;
  transformer : list nat
}.

Record State : Type := mkState {
  pen : Pen;
  mode : Mode;
  scene : Scene
}.

Definition with_geometry (g : Geometry) (n : Node) : Node :=
  mkNode g (name n) (stroke n) (strokeWidth n) (draggable n) (listening n).

(** [this.transformer.nodes(l)]. *)
Definition select_nodes (l : list nat) (sc : Scene) : Scene :=
  mkScene (nodes sc) (shapeLayer sc) l.

(** [new Konva.X(...)] followed by [this.shapeLayer.add(...)]: the
    reference of the new node and the scene with it. *)
Definition add_node (n : Node) (sc : Scene) : nat * Scene :=
  (List.length (nodes sc),
   mkScene (nodes sc ++ [n]) (shapeLayer sc ++ [List.length (nodes sc)])
     (transformer sc)).

(** A write to the node behind a reference. *)
Definition update_node (id : nat) (n : Node) (sc : Scene) : Scene :=
  mkScene (set_nth id n (nodes sc)) (shapeLayer sc) (transformer sc).

(** [node.destroy()]. *)
Definition destroy (id : nat) (sc : Scene) : Scene :=
  mkScene (nodes sc) (filter (fun c => negb (Nat.eqb c id)) (shapeLayer sc))
    (transformer sc).

(** [Math.abs] and [Math.max]. *)
Definition Math_abs (q : Q) : Q := if JS.ltb q 0 then - q else q.

Definition Math_max (a b : Q) : Q := if Qle_bool a b then b else a.

(** [startDrawing]; [pos] is [this.stage.getPointerPosition()]. *)
Definition startDrawing (pos : Point) (s : State) : State :=
  let sc := select_nodes [] (scene s) in
  let m := mode s in
  if String.eqb (currentTool m) "text"
  then mkState (pen s) m sc
  else
    let startPoint := mkPoint (pt_x pos) (pt_y pos) in
    if String.eqb (currentTool m) "circle"
    then
      let '(id, sc') :=
        add_node (mkNode (Ellipse (pt_x pos) (pt_y pos) 0 0) "shape"
                    (currentColor m) (currentSize m) true true) sc in
      mkState (mkPen true startPoint (Some id) (drawingPoints (pen s))) m sc'
    else if String.eqb (currentTool m) "rectangle"
            || String.eqb (currentTool m) "square"
    then
      let '(id, sc') :=
        add_node (mkNode (Rect (pt_x pos) (pt_y pos) 0 0) "shape"
                    (currentColor m) (currentSize m) true true) sc in
      mkState (mkPen true startPoint (Some id) (drawingPoints (pen s))) m sc'
    else if String.eqb (currentTool m) "pencil"
    then
      let drawingPoints := [pt_x pos; pt_y pos; pt_x pos; pt_y pos] in
      let '(id, sc') :=
        add_node (mkNode (Line drawingPoints) "shape"
                    (currentColor m) (currentSize m) true false) sc in
      mkState (mkPen true startPoint (Some id) drawingPoints) m sc'
    else if String.eqb (currentTool m) "eraser"
    then
      let '(id, sc') :=
        add_node (mkNode (Line [pt_x pos; pt_y pos]) "eraser"
                    "white" (currentSize m) false true) sc in
      mkState (mkPen true startPoint (Some id) (drawingPoints (pen s))) m sc'
    else
      mkState (mkPen true startPoint (activeShape (pen s))
                 (drawingPoints (pen s))) m sc.

(** [draw]. *)
Definition draw (pos : Point) (s : State) : option State :=
  let p := pen s in
  if negb (isDrawing p) then Some s
  else
    match activeShape p with
    | None => Some s
    | Some id =>
        match nth_error (nodes (scene s)) id with
        | None => None
        | Some node =>
            let tool := currentTool (mode s) in
            let dx := pt_x pos - pt_x (startPoint p) in
            let dy := pt_y pos - pt_y (startPoint p) in
            if String.eqb tool "pencil"
            then
              match geometry node with
              | Line _ =>
                  if String.eqb (name node) "shape"
                  then
                    let points := drawingPoints p ++ [pt_x pos; pt_y pos] in
                    Some (mkState
                            (mkPen (isDrawing p) (startPoint p)
                               (activeShape p) points)
                            (mode s)
                            (update_node id (with_geometry (Line points) node)
                               (scene s)))
                  else None
              | _ => None
              end
            else if String.eqb tool "circle"
            then
              match geometry node with
              | Ellipse _ _ _ _ =>
                  Some (mkState p (mode s)
                          (update_node id
                             (with_geometry
                                (Ellipse (pt_x (startPoint p))
                                   (pt_y (startPoint p))
                                   (Math_abs dx) (Math_abs dy)) node)
                             (scene s)))
              | _ => None
              end
            else if String.eqb tool "rectangle"
            then
              match geometry node with
              | Rect _ _ _ _ =>
                  Some (mkState p (mode s)
                          (update_node id
                             (with_geometry
                                (Rect
                                   (if JS.ltb dx 0 then pt_x pos
                                    else pt_x (startPoint p))
                                   (if JS.ltb dy 0 then pt_y pos
                                    else pt_y (startPoint p))
                                   (Math_abs dx) (Math_abs dy)) node)
                             (scene s)))
              | _ => None
              end
            else if String.eqb tool "square"
            then
              match geometry node with
              | Rect _ _ _ _ =>
                  let size := Math_max (Math_abs dx) (Math_abs dy) in
                  Some (mkState p (mode s)
                          (update_node id
                             (with_geometry
                                (Rect
                                   (if JS.ltb dx 0
                                    then pt_x (startPoint p) - size
                                    else pt_x (startPoint p))
                                   (if JS.ltb dy 0
                                    then pt_y (startPoint p) - size
                                    else pt_y (startPoint p))
                                   size size) node)
                             (scene s)))
              | _ => None
              end
            else Some s
        end
    end.

(** [stopDrawing]. *)
Definition stopDrawing (s : State) : option State :=
  let p := pen s in
  if negb (isDrawing p) then Some s
  else
    let idle := mkPen false (startPoint p) (activeShape p) (drawingPoints p) in
    match activeShape p with
    | None => Some (mkState idle (mode s) (scene s))
    | Some id =>
        match nth_error (nodes (scene s)) id with
        | None => None
        | Some node =>
            let tool := currentTool (mode s) in
            let finish (points : list Q) (sc : Scene) :=
              Some (mkState (mkPen false (startPoint p) None points)
                      (mode s) sc) in
            if String.eqb tool "circle"
            then
              match geometry node with
              | Ellipse _ _ rx ry =>
                  if Qeq_bool rx 0 && Qeq_bool ry 0
                  then finish (drawingPoints p) (destroy id (scene s))
                  else finish (drawingPoints p) (select_nodes [id] (scene s))
              | _ => None
              end
            else if String.eqb tool "rectangle" || String.eqb tool "square"
            then
              match geometry node with
              | Rect _ _ w h =>
                  if Qeq_bool w 0 || Qeq_bool h 0
                  then finish (drawingPoints p) (destroy id (scene s))
                  else finish (drawingPoints p) (select_nodes [id] (scene s))
              | _ => None
              end
            else if String.eqb tool "pencil"
            then
              match geometry node with
              | Line points =>
                  let node' :=
                    mkNode (geometry node) (name node) (stroke node)
                      (strokeWidth node) true true in
                  let sc := update_node id node' (scene s) in
                  if (4 <? List.length points)%nat
                  then finish [] (select_nodes [id] sc)
                  else finish [] sc
              | _ => None
              end
            else if negb (String.eqb tool "eraser")
            then finish (drawingPoints p) (select_nodes [id] (scene s))
            else finish (drawingPoints p) (scene s)
        end
    end.

(** [toggleNavigationMode]. *)
Definition toggleNavigationMode (enabled : bool) (s : State) : State :=
  let m := mode s in
  if enabled
  then
    let attach := negb (navigationEventsAttached m) in
    mkState (pen s)
      (mkMode (currentTool m) (currentColor m) (currentSize m) true true
         true
         (if attach then S (cursorListeners m) else cursorListeners m)
         "grab")
      (select_nodes [] (scene s))
  else
    mkState (pen s)
      (mkMode (currentTool m) (currentColor m) (currentSize m) false false
         (navigationEventsAttached m) (cursorListeners m) "default")
      (scene s).

(** What the pointer is on: the stage, a node of the store, or a handle
    of the transformer. *)
Inductive Target : Type :=
| on_stage
| on_node (id : nat)
| on_handle.

(** [fullName.split(/\s/g)]: the words between white space, the last one
    being [word] in reverse while it is read. *)
Fixpoint split_names (s : string) (word : string) : list string :=
  match s with
  | EmptyString => [word]
  | String c t =>
      if Color.is_white_space c
      then word :: split_names t EmptyString
      else split_names t (word ++ String c EmptyString)%string
  end.

(** Konva's [node.hasName(n)] for a non-empty [n]. *)
Definition hasName (n : string) (node : Node) : bool :=
  if JS.truthy_string (name node)
  then existsb (String.eqb n) (split_names (name node) EmptyString)
  else false.

(** [node.hasName('shape') || node.hasName('text')]. *)
Definition selectable (node : Node) : bool :=
  hasName "shape" node || hasName "text" node.

Definition set_cursor (c : string) (s : State) : State :=
  let m := mode s in
  mkState (pen s)
    (mkMode (currentTool m) (currentColor m) (currentSize m)
       (isNavigationMode m) (stageDraggable m) (navigationEventsAttached m)
       (cursorListeners m) c)
    (scene s).

Definition set_tool (t : string) (s : State) : State :=
  let m := mode s in
  mkState (pen s)
    (mkMode t (currentColor m) (currentSize m)
       (isNavigationMode m) (stageDraggable m) (navigationEventsAttached m)
       (cursorListeners m) (cursor m))
    (scene s).

(** The listener of [mousedown touchstart].  [top] is what
    [getIntersection] returns, [on_stage] standing for [null]. *)
Definition on_down (target top : Target) (pos : Point) (s : State)
  : option State :=
  if isNavigationMode (mode s) then Some s
  else
    let select id := Some (mkState (pen s) (mode s)
                             (select_nodes [id] (scene s))) in
    match target with
    | on_stage => Some (startDrawing pos s)
    | on_handle => Some s
    | on_node t =>
        match nth_error (nodes (scene s)) t with
        | None => None
        | Some node =>
            if selectable node
            then
              match top with
              | on_node u =>
                  match nth_error (nodes (scene s)) u with
                  | None => None
                  | Some topShape =>
                      if selectable topShape then select u else select t
                  end
              | _ => select t
              end
            else Some s
        end
    end.

(** The listeners of [mousemove touchmove] and [mouseup touchend]. *)
Definition on_move (pos : Point) (s : State) : option State :=
  if isNavigationMode (mode s) then Some s else draw pos s.

Definition on_up (s : State) : option State :=
  if isNavigationMode (mode s) then Some s else stopDrawing s.

(** The cursor listeners that [toggleNavigationMode] registers on
    [mousedown] and [mouseup]; they run after the listeners above. *)
Definition cursor_listener (c : string) (s : State) : State :=
  if (0 <? cursorListeners (mode s))%nat && isNavigationMode (mode s)
  then set_cursor c s
  else s.

(** The click listener of a tool button. *)
Definition tool_click (id : string) (s : State) : State :=
  let s1 := set_tool id s in
  if String.eqb id "navigation"
  then toggleNavigationMode true s1
  else
    let s2 := toggleNavigationMode false s1 in
    mkState (pen s2) (mode s2) (select_nodes [] (scene s2)).

(** [handleKeyDown]; [editingText] tells whether a [textarea] exists. *)
Definition handleKeyDown (key : string) (editingText : bool) (s : State)
  : State :=
  if editingText then s
  else if (String.eqb key "Delete" || String.eqb key "Backspace")
          && (0 <? List.length (transformer (scene s)))%nat
  then
    let selectedNodes := transformer (scene s) in
    mkState (pen s) (mode s)
      (select_nodes [] (fold_left (fun sc id => destroy id sc) selectedNodes
                          (scene s)))
  else s.

(** [clearCanvas]. *)
Definition clearCanvas (s : State) : State :=
  mkState (pen s) (mode s) (mkScene (nodes (scene s)) [] []).

(** The events the model follows. *)
Inductive Event : Type :=
| mousedown (target top : Target) (pos : Point)
| touchstart (target top : Target) (pos : Point)
| mousemove (pos : Point)
| mouseup
| touchend
| click_tool (id : string)
| keydown (key : string) (editingText : bool)
| click_clear.

Definition handle (e : Event) (s : State) : option State :=
  match e with
  | mousedown target top pos =>
      option_map (cursor_listener "grabbing") (on_down target top pos s)
  | touchstart target top pos => on_down target top pos s
  | mousemove pos => on_move pos s
  | mouseup => option_map (cursor_listener "grab") (on_up s)
  | touchend => on_up s
  | click_tool id => Some (tool_click id s)
  | keydown key editingText => Some (handleKeyDown key editingText s)
  | click_clear => Some (clearCanvas s)
  end.

Fixpoint run (es : list Event) (s : State) : option State :=
  match es with
  | [] => Some s
  | e :: rest =>
      match handle e s with
      | Some s' => run rest s'
      | None => None
      end
  end.

(** The state the constructor leaves: nothing drawn, the pencil chosen. *)
Definition initial : State :=
  mkState (mkPen false (mkPoint 0 0) None [])
    (mkMode "pencil" "#000000" 16 false false false 0 "")
    (mkScene [] [] []).

(** A stroke: press on the empty stage, move through [moves], release. *)
Definition stroke_events (p0 : Point) (moves : list Point) : list Event :=
  mousedown on_stage on_stage p0 :: map mousemove moves ++ [mouseup].

(** *** Vocabulary of the properties *)

(** The geometry [draw] gives the active shape for a shape tool, the
    stroke having started at [p0] and the pointer being at [p]. *)
Definition dragged (tool : string) (p0 p : Point) : Geometry :=
  let dx := pt_x p - pt_x p0 in
  let dy := pt_y p - pt_y p0 in
  if String.eqb tool "circle"
  then Ellipse (pt_x p0) (pt_y p0) (Math_abs dx) (Math_abs dy)
  else if String.eqb tool "rectangle"
  then Rect (if JS.ltb dx 0 then pt_x p else pt_x p0)
            (if JS.ltb dy 0 then pt_y p else pt_y p0)
            (Math_abs dx) (Math_abs dy)
  else
    let size := Math_max (Math_abs dx) (Math_abs dy) in
    Rect (if JS.ltb dx 0 then pt_x p0 - size else pt_x p0)
         (if JS.ltb dy 0 then pt_y p0 - size else pt_y p0)
         size size.

(** The geometry [startDrawing] gives a new shape. *)
Definition pressed (tool : string) (p0 : Point) : Geometry :=
  if String.eqb tool "circle"
  then Ellipse (pt_x p0) (pt_y p0) 0 0
  else Rect (pt_x p0) (pt_y p0) 0 0.

(** The geometry at the end of a stroke through [moves]. *)
Definition stroke_geometry (tool : string) (p0 : Point) (moves : list Point)
  : Geometry :=
  match List.rev moves with
  | [] => pressed tool p0
  | p :: _ => dragged tool p0 p
  end.

(** The shapes [stopDrawing] destroys. *)
Definition zero_sized (g : Geometry) : bool :=
  match g with
  | Ellipse _ _ rx ry => Qeq_bool rx 0 && Qeq_bool ry 0
  | Rect _ _ w h => Qeq_bool w 0 || Qeq_bool h 0
  | _ => false
  end.

Definition shape_tool (tool : string) : Prop :=
  tool = "circle"%string \/ tool = "rectangle"%string \/ tool = "square"%string.

(** The children of the layer are references into the store. *)
Definition layer_ok (sc : Scene) : Prop :=
  Forall (fun id => (id < List.length (nodes sc))%nat) (shapeLayer sc).

(** The coordinates of the points of a pencil stroke. *)
Fixpoint coordinates (ps : list Point) : list Q :=
  match ps with
  | [] => []
  | p :: t => pt_x p :: pt_y p :: coordinates t
  end.

(** The pointer events: the ones the navigation mode turns off. *)
Definition pointer_event (e : Event) : bool :=
  match e with
  | mousedown _ _ _ | touchstart _ _ _ | mousemove _ | mouseup | touchend => true
  | _ => false
  end.

(** The state in the middle of a stroke with a shape tool that started at
    [p0] in the state [s]: the new shape, of geometry [g], is the last
    node of the store and the last child of the layer, and nothing is
    selected. *)
Definition shaping (s : State) (p0 : Point) (g : Geometry) : State :=
  let n := List.length (nodes (scene s)) in
  mkState
    (mkPen true p0 (Some n) (drawingPoints (pen s)))
    (mode s)
    (mkScene
       (nodes (scene s)
          ++ [mkNode g "shape" (currentColor (mode s)) (currentSize (mode s))
                true true])
       (shapeLayer (scene s) ++ [n])
       []).

(** The same for the pencil and for the eraser. *)
Definition pencilling (s : State) (p0 : Point) (points : list Q) : State :=
  let n := List.length (nodes (scene s)) in
  mkState
    (mkPen true p0 (Some n) points)
    (mode s)
    (mkScene
       (nodes (scene s)
          ++ [mkNode (Line points) "shape" (currentColor (mode s))
                (currentSize (mode s)) true false])
       (shapeLayer (scene s) ++ [n])
       []).

Definition erasing (s : State) (p0 : Point) : State :=
  let n := List.length (nodes (scene s)) in
  mkState
    (mkPen true p0 (Some n) (drawingPoints (pen s)))
    (mode s)
    (mkScene
       (nodes (scene s)
          ++ [mkNode (Line [pt_x p0; pt_y p0]) "eraser" "white"
                (currentSize (mode s)) false true])
       (shapeLayer (scene s) ++ [n])
       []).

(** The state after the release that ends such a stroke: a shape of no
    size is taken off the layer again, any other is left as the last child
    and is the one selected. *)
Definition finished (s : State) (p0 : Point) (g : Geometry) : State :=
  let n := List.length (nodes (scene s)) in
  mkState
    (mkPen false p0 None (drawingPoints (pen s)))
    (mode s)
    (mkScene
       (nodes (scene s)
          ++ [mkNode g "shape" (currentColor (mode s)) (currentSize (mode s))
                true true])
       (if zero_sized g then shapeLayer (scene s)
        else shapeLayer (scene s) ++ [n])
       (if zero_sized g then [] else [n])).


End Sketch.

(** ** The client of the proxy: [generateImages], [reimagineImage],
    [generateMockImages]

    The answers of the three requests, the rendering of a mock image on a
    canvas and the texts of the engine's own exceptions are inputs.
    [displayThumbnails] only builds the thumbnails and is left out, and a
    call is followed alone, not interleaved with another one. *)
Module Client.

(** What [JSON.parse] gives, and [undefined] for a property that is not
    there. *)
#[local] Unset Elimination Schemes.
Inductive Value : Type :=
| undefined
| null
| boolean (b : bool)
| number (n : Q)
| str (s : string)
| array (items : list Value)
| object (fields : list (string * Value)).
#[local] Set Elimination Schemes.

Record GeneratedImage : Type := mkGeneratedImage {
  gen_id : string;
  gen_url : string;
  gen_width : Z;
  gen_height : Z
}.

(** A computation that returns or throws; [thrown] carries the [message]
    of the exception. *)
Inductive Try (A : Type) : Type :=
| returned (v : A)
| thrown (message : string).
Arguments returned {A} v.
Arguments thrown {A} message.

Definition bind {A B : Type} (t : Try A) (k : A -> Try B) : Try B :=
  match t with
  | returned v => k v
  | thrown m => thrown m
  end.

Notation "x <- t ;; k" := (bind t (fun x => k))
  (at level 61, t at next level, right associativity).

(** A response of [fetch]: [parsed] is what [JSON.parse] makes of the text,
    [None] when the text is not JSON. *)
Record Reply : Type := mkReply {
  ok : bool;
  status : Z;
  text : Try string;
  parsed : option Value
}.

Inductive Fetched : Type :=
| resolved (response : Reply)
| rejected (message : string).

(** What a call leaves: [this.generatedImages] and the alerts shown. *)
Record Outcome : Type := mkOutcome {
  generatedImages : list GeneratedImage;
  alerts : list string
}.

Definition truthy (v : Value) : bool :=
  match v with
  | undefined | null => false
  | boolean b => b
  | number n => negb (Qeq_bool n 0)
  | str s => JS.truthy_string s
  | array _ | object _ => true
  end.

Fixpoint lookup (k : string) (fs : list (string * Value)) : Value :=
  match fs with
  | [] => undefined
  | (k', v) :: t => if String.eqb k k' then v else lookup k t
  end.

(** The size every generated image is given. *)
Definition sized (i : GeneratedImage) : Prop :=
  gen_width i = 512%Z /\ gen_height i = 512%Z.

(** The colour themes of [generateMockImages]. *)
Definition colors : list (string * string) :=
  [("#f5e1e5", "#8c212a"); ("#e1f5e1", "#1e5e1e"); ("#e1e1f5", "#1e1e5e")]%string.

Section Browser.

(** The message of the [TypeError] for reading property [k] of [null]. *)
Variable type_error_message : string -> string.

(** The message of the [SyntaxError] of [JSON.parse] for a text. *)
Variable syntax_error_message : string -> string.

(** The string conversion of a number, an array or an object. *)
Variable ToString : Value -> Try string.

(** The drawing of a mock image on a canvas, ending in [toDataURL]. *)
Variable createAdvancedMockImage :
  Z -> Z -> string -> string -> string -> Z -> Try string.

(** [v.k] for the keys the client reads: [error], [details], [success] and
    [image], none of which a primitive or an array has. *)
Definition read (k : string) (v : Value) : Try Value :=
  match v with
  | undefined | null => thrown (type_error_message k)
  | object fs => returned (lookup k fs)
  | _ => returned undefined
  end.

(** A value inside a template literal. *)
Definition template (v : Value) : Try string :=
  match v with
  | str s => returned s
  | undefined => returned "undefined"%string
  | null => returned "null"%string
  | boolean true => returned "true"%string
  | boolean false => returned "false"%string
  | _ => ToString v
  end.

(** [await response.json()]. *)
Definition json (response : Reply) : Try Value :=
  t <- text response ;;
  match parsed response with
  | Some v => returned v
  | None => thrown (syntax_error_message t)
  end.

(** The image pushed for an [image] field. *)
Definition new_image (id : string) (image : Value) : Try GeneratedImage :=
  s <- template image ;;
  returned (mkGeneratedImage id ("data:image/png;base64," ++ s) 512 512).

(** The first request of [generateImages], up to the first push. *)
Definition generate_first (f : Fetched) : Try GeneratedImage :=
  match f with
  | rejected m => thrown m
  | resolved response =>
      responseText <- text response ;;
      let invalid :=
        thrown ("API returned invalid JSON: " ++ responseText)%string in
      match parsed response with
      | None => invalid
      | Some undefined => invalid
      | Some null => invalid
      | Some responseData =>
          error <- read "error" responseData ;;
          if negb (ok response) || truthy error
          then
            let errorMessage :=
              if truthy error then error
              else str ("API request failed: "
                          ++ JS.number_to_string (status response)) in
            m <- template errorMessage ;;
            thrown m
          else
            success <- read "success" responseData ;;
            if negb (truthy success)
            then thrown "No image returned from API"%string
            else
              image <- read "image" responseData ;;
              if negb (truthy image)
              then thrown "No image returned from API"%string
              else new_image "1" image
      end
  end.

(** The second and the third request, of both functions: what is pushed. *)
Definition additional (id : string) (f : Fetched)
  : Try (list GeneratedImage) :=
  match f with
  | rejected m => thrown m
  | resolved response =>
      if ok response
      then
        data <- json response ;;
        success <- read "success" data ;;
        if truthy success
        then
          image <- read "image" data ;;
          if truthy image
          then img <- new_image id image ;; returned [img]
          else returned []
        else returned []
      else returned []
  end.

(** [colors.map(...)] of [generateMockImages], from the theme of index
    [index] on. *)
Fixpoint mock_from (index : nat) (cs : list (string * string))
    (prompt : string) : Try (list GeneratedImage) :=
  match cs with
  | [] => returned []
  | (bg, text) :: rest =>
      u <- createAdvancedMockImage 512 512 bg text prompt
             (Z.of_nat index + 1) ;;
      l <- mock_from (S index) rest prompt ;;
      returned (mkGeneratedImage (JS.number_to_string (Z.of_nat index + 1))
                  u 512 512 :: l)
  end.

Definition generateMockImages (prompt : string) : Try (list GeneratedImage) :=
  mock_from 0 colors prompt.

(** The handler [catch (apiError)] of both functions, run after
    [this.generatedImages = []]; [outer] is the alert of the outer
    handler, which catches what [generateMockImages] throws. *)
Definition fallback (prompt message outer : string) : Outcome :=
  match generateMockImages prompt with
  | returned mockImages =>
      mkOutcome mockImages [("Error: " ++ message)%string]
  | thrown _ => mkOutcome [] [("Error: " ++ message)%string; outer]
  end.

(** [generateImages]. *)
Definition generateImages (prompt : string) (f1 f2 f3 : Fetched) : Outcome :=
  match generate_first f1 with
  | thrown m =>
      fallback prompt m "Failed to generate images. Please try again."
  | returned image1 =>
      match additional "2" f2 with
      | thrown _ => mkOutcome [image1] []
      | returned l2 =>
          match additional "3" f3 with
          | thrown _ => mkOutcome (image1 :: l2) []
          | returned l3 => mkOutcome (image1 :: l2 ++ l3) []
          end
      end
  end.

(** The first request of [reimagineImage], up to the first push. *)
Definition reimagine_first (f : Fetched) : Try GeneratedImage :=
  match f with
  | rejected m => thrown m
  | resolved response1 =>
      if negb (ok response1)
      then
        errorData <- json response1 ;;
        details <- read "details" errorData ;;
        v <- (if truthy details then returned details
              else read "error" errorData) ;;
        s <- template v ;;
        thrown ("API request failed: "
                  ++ JS.number_to_string (status response1) ++ " - " ++ s)%string
      else
        responseData1 <- json response1 ;;
        success <- read "success" responseData1 ;;
        if negb (truthy success)
        then thrown "No image returned from API"%string
        else
          image <- read "image" responseData1 ;;
          if negb (truthy image)
          then thrown "No image returned from API"%string
          else new_image "1" image
  end.

(** [reimagineImage]; [file] tells whether a file is chosen, [env] is what
    the browser does with it, [previous] is [this.generatedImages] before
    the call. *)
Definition reimagineImage (file : bool) (env : Sizing.Browser)
    (previous : list GeneratedImage) (f1 f2 f3 : Fetched) : Outcome :=
  if negb file then mkOutcome previous []
  else
    match Sizing.resizeImageFile env 1024 1024 with
    | Sizing.reject _ =>
        mkOutcome [] ["Failed to reimagine image. Please try again."%string]
    | _ =>
        match (image1 <- reimagine_first f1 ;;
               l2 <- additional "2" f2 ;;
               l3 <- additional "3" f3 ;;
               returned (image1 :: l2 ++ l3)) with
        | returned images => mkOutcome images []
        | thrown m =>
            fallback "Reimagined image" m
              "Failed to reimagine image. Please try again."
        end
    end.

End Browser.

End Client.

(** ** Concrete situations used by the examples *)

(** The application right after the constructor, in a container of
    800 by 600. *)
Definition startup : DrawingApp := constructor (Some (mkDOMRect 800 600)).


(** Two images of 100 by 100 placed on the same spot, [imageA] first. *)
Definition imageA : PlacedImage :=
  mkPlacedImage "img_1_1" "a.png" 450 450 100 100 false None.

Definition imageB : PlacedImage :=
  mkPlacedImage "img_2_2" "b.png" 450 450 100 100 false None.

Definition twoImages : DrawingApp := with_placedImages [imageA; imageB] startup.

(** One image, selected by a click on its centre. *)
Definition oneSelected : DrawingApp :=
  snd (selectImageAt 500 500 (with_placedImages [imageA] startup)).

(** Requests to the proxy, and Clipdrop answering with a PNG.  [sample_base64]
    stands for the encoder in the examples. *)
Definition sample_base64 (bytes : list Byte.byte) : string :=
  string_of_list_byte bytes.





Definition png_response : Proxy.FetchResponse :=
  Proxy.mkFetchResponse true 200 (Some "image/png"%string)
    (Proxy.read_ok "PNG"%string)
    (Proxy.read_ok (list_byte_of_string "PNG")).

(** An engine and a canvas for the examples of the client, and answers of
    the proxy. *)
Definition engine_type_error (k : string) : string :=
  ("Cannot read properties of null (reading " ++ k ++ ")")%string.

Definition engine_syntax_error (t : string) : string :=
  ("Unexpected token in JSON: " ++ t)%string.

Definition engine_ToString (v : Client.Value) : Client.Try string :=
  Client.returned "[object Object]"%string.

Definition canvas_mock (width height : Z) (bgColor textColor prompt : string)
    (imageNumber : Z) : Client.Try string :=
  Client.returned ("data:image/png;base64,mock" ++ bgColor)%string.

Definition quote : string := String (Ascii.ascii_of_nat 34) EmptyString.

Definition reply_with_image (base64 : string) : Client.Fetched :=
  Client.resolved
    (Client.mkReply true 200
       (Client.returned
          ("{" ++ quote ++ "success" ++ quote ++ ":true," ++ quote ++ "image"
             ++ quote ++ ":" ++ quote ++ base64 ++ quote ++ "}")%string)
       (Some (Client.object
                [("success"%string, Client.boolean true);
                 ("image"%string, Client.str base64)]))).

Definition browser_small_image : Sizing.Browser :=
  Sizing.mkBrowser Sizing.read_data_url (Sizing.image_loaded 640 480) true true.

(** * Properties *)

(** ** Comparisons *)

Module JSFacts.

Lemma ltb_true (a b : Q) : JS.ltb a b = true -> a < b.
Proof.
  unfold JS.ltb. intros H. apply negb_true_iff in H.
  apply Qnot_le_lt. intros Hle. apply Qle_bool_iff in Hle. congruence.
Qed.

Lemma ltb_false (a b : Q) : JS.ltb a b = false -> b <= a.
Proof.
  unfold JS.ltb. intros H. apply negb_false_iff in H.
  now apply Qle_bool_iff.
Qed.

Lemma gtb_true (a b : Q) : JS.gtb a b = true -> b < a.
Proof. apply ltb_true. Qed.

Lemma gtb_false (a b : Q) : JS.gtb a b = false -> a <= b.
Proof. apply ltb_false. Qed.

Lemma ltb_intro (a b : Q) : a < b -> JS.ltb a b = true.
Proof.
  intros H. destruct (JS.ltb a b) eqn:E; [reflexivity|].
  apply ltb_false in E. lra.
Qed.

Lemma ltb_elim (a b : Q) : b <= a -> JS.ltb a b = false.
Proof.
  intros H. destruct (JS.ltb a b) eqn:E; [|reflexivity].
  apply ltb_true in E. lra.
Qed.

Lemma falsy_number_iff (n : Q) : JS.falsy_number n = true <-> n == 0.
Proof. unfold JS.falsy_number. apply Qeq_bool_iff. Qed.

Lemma truthy_string_iff (s : string) :
  JS.truthy_string s = true <-> s <> EmptyString.
Proof. destruct s; simpl; split; congruence. Qed.

Lemma strict_neq_true (a b : string) : JS.strict_neq a b = true <-> a <> b.
Proof.
  unfold JS.strict_neq. rewrite negb_true_iff.
  destruct (String.eqb_spec a b); split; congruence.
Qed.

Lemma strict_neq_false (a b : string) : JS.strict_neq a b = false <-> a = b.
Proof.
  unfold JS.strict_neq. rewrite negb_false_iff. apply String.eqb_eq.
Qed.

End JSFacts.

(** Turns the boolean tests met in a goal into facts of [Q]. *)
Ltac js_cases :=
  repeat match goal with
    | |- context [JS.gtb ?a ?b] =>
        let E := fresh "E" in
        destruct (JS.gtb a b) eqn:E;
        [apply JSFacts.gtb_true in E | apply JSFacts.gtb_false in E]
    | |- context [JS.ltb ?a ?b] =>
        let E := fresh "E" in
        destruct (JS.ltb a b) eqn:E;
        [apply JSFacts.ltb_true in E | apply JSFacts.ltb_false in E]
    end.

(** ** Viewport *)

Module ViewportSpec.

(** [limitStage] never touches the size of the stage. *)
Lemma limitStage_size (vw vh : Q) (s : Konva.Stage) :
  Konva.width (limitStage vw vh s) = Konva.width s /\
  Konva.height (limitStage vw vh s) = Konva.height s.
Proof.
  unfold limitStage; cbn -[Qle_bool]. js_cases; cbn; auto.
Qed.

(** The horizontal coordinate after [limitStage], case by case. *)
Lemma limitStage_x (vw vh : Q) (s : Konva.Stage) :
  Konva.width s <= vw ->
  (0 < Konva.x s -> Konva.x (limitStage vw vh s) = 0) /\
  (Konva.x s < - (vw - Konva.width s) ->
   Konva.x (limitStage vw vh s) = - (vw - Konva.width s)) /\
  (- (vw - Konva.width s) <= Konva.x s <= 0 ->
   Konva.x (limitStage vw vh s) = Konva.x s).
Proof.
  intros Hw. unfold limitStage; cbn -[Qle_bool Qplus Qminus Qopp].
  js_cases; cbn -[Qle_bool Qplus Qminus Qopp];
    repeat split; intros; try reflexivity; lra.
Qed.

(** The vertical coordinate after [limitStage], case by case. *)
Lemma limitStage_y (vw vh : Q) (s : Konva.Stage) :
  Konva.height s <= vh ->
  (0 < Konva.y s -> Konva.y (limitStage vw vh s) = 0) /\
  (Konva.y s < - (vh - Konva.height s) ->
   Konva.y (limitStage vw vh s) = - (vh - Konva.height s)) /\
  (- (vh - Konva.height s) <= Konva.y s <= 0 ->
   Konva.y (limitStage vw vh s) = Konva.y s).
Proof.
  intros Hh. unfold limitStage; cbn -[Qle_bool Qplus Qminus Qopp].
  js_cases; cbn -[Qle_bool Qplus Qminus Qopp];
    repeat split; intros; try reflexivity; lra.
Qed.

(** When the virtual canvas is at least as large as the stage,
    [limitStage] lands inside the bounds. *)
Lemma limitStage_in_bounds (vw vh : Q) (s : Konva.Stage) :
  Konva.width s <= vw -> Konva.height s <= vh ->
  in_bounds vw vh (limitStage vw vh s).
Proof.
  intros Hw Hh. unfold in_bounds.
  destruct (limitStage_size vw vh s) as [-> ->].
  destruct (limitStage_x vw vh s Hw) as (X1 & X2 & X3).
  destruct (limitStage_y vw vh s Hh) as (Y1 & Y2 & Y3).
  assert (CX : 0 < Konva.x s \/ Konva.x s < - (vw - Konva.width s) \/
               - (vw - Konva.width s) <= Konva.x s <= 0).
  { destruct (Qlt_le_dec 0 (Konva.x s)); [lra|].
    destruct (Qlt_le_dec (Konva.x s) (- (vw - Konva.width s))); lra. }
  assert (CY : 0 < Konva.y s \/ Konva.y s < - (vh - Konva.height s) \/
               - (vh - Konva.height s) <= Konva.y s <= 0).
  { destruct (Qlt_le_dec 0 (Konva.y s)); [lra|].
    destruct (Qlt_le_dec (Konva.y s) (- (vh - Konva.height s))); lra. }
  destruct CX as [C|[C|C]]; [rewrite (X1 C)|rewrite (X2 C)|rewrite (X3 C)];
    (destruct CY as [D|[D|D]];
     [rewrite (Y1 D)|rewrite (Y2 D)|rewrite (Y3 D)]); lra.
Qed.

(** [dragmove] leaves everything but the stage alone. *)
Lemma dragmove_virtual (d : Point) (a : DrawingApp) :
  virtualCanvasWidth (dragmove d a) = virtualCanvasWidth a /\
  virtualCanvasHeight (dragmove d a) = virtualCanvasHeight a /\
  placedImages (dragmove d a) = placedImages a.
Proof.
  unfold dragmove, limitDragBoundaries.
  destruct (stage a); cbn; auto.
Qed.

(** C3.  When the virtual canvas is at least as large as the viewport,
    a pan by any delta from any offset, followed by
    [limitDragBoundaries], leaves an offset with
    [0 <= -x <= virtualWidth - viewportWidth] and
    [0 <= -y <= virtualHeight - viewportHeight].  The clamp is a hard
    clip: a requested coordinate above [0] becomes exactly [0], one
    below the lower bound becomes exactly that bound, and one inside the
    range is kept. *)
Theorem pan_offset_clamped (a : DrawingApp) (s : Konva.Stage) (d : Point) :
  stage a = Some s ->
  Konva.width s <= virtualCanvasWidth a ->
  Konva.height s <= virtualCanvasHeight a ->
  let vw := virtualCanvasWidth a in
  let vh := virtualCanvasHeight a in
  let rx := Konva.x s + pt_x d in
  let ry := Konva.y s + pt_y d in
  exists s',
    stage (dragmove d a) = Some s' /\
    Konva.width s' = Konva.width s /\
    Konva.height s' = Konva.height s /\
    0 <= - Konva.x s' <= vw - Konva.width s /\
    0 <= - Konva.y s' <= vh - Konva.height s /\
    (0 < rx -> Konva.x s' = 0) /\
    (rx < - (vw - Konva.width s) -> Konva.x s' = - (vw - Konva.width s)) /\
    (- (vw - Konva.width s) <= rx <= 0 -> Konva.x s' = rx) /\
    (0 < ry -> Konva.y s' = 0) /\
    (ry < - (vh - Konva.height s) -> Konva.y s' = - (vh - Konva.height s)) /\
    (- (vh - Konva.height s) <= ry <= 0 -> Konva.y s' = ry).
Proof.
  intros Hs Hw Hh vw vh rx ry.
  unfold dragmove, limitDragBoundaries. rewrite Hs. cbn [stage with_stage].
  cbn [virtualCanvasWidth virtualCanvasHeight].
  fold vw vh.
  set (m := moveStage d s).
  assert (Mw : Konva.width m = Konva.width s) by reflexivity.
  assert (Mh : Konva.height m = Konva.height s) by reflexivity.
  assert (Mx : Konva.x m = rx) by reflexivity.
  assert (My : Konva.y m = ry) by reflexivity.
  exists (limitStage vw vh m).
  destruct (limitStage_size vw vh m) as [Sw Sh].
  assert (Hw' : Konva.width m <= vw) by (rewrite Mw; exact Hw).
  assert (Hh' : Konva.height m <= vh) by (rewrite Mh; exact Hh).
  pose proof (limitStage_in_bounds vw vh m Hw' Hh') as [Bx By].
  destruct (limitStage_x vw vh m Hw') as (X1 & X2 & X3).
  destruct (limitStage_y vw vh m Hh') as (Y1 & Y2 & Y3).
  rewrite Sw, Mw in Bx. rewrite Sh, Mh in By.
  rewrite Mw, Mx in X2, X3. rewrite Mx in X1.
  rewrite Mh, My in Y2, Y3. rewrite My in Y1.
  rewrite Sw, Sh, Mw, Mh.
  repeat split; try assumption; try reflexivity; tauto.
Qed.

Lemma pan_offset_clamped_witness :
  exists s',
    stage (dragmove (mkPoint (-2500) 0) startup) = Some s' /\
    0 <= - Konva.x s' <= 3000 - 800 /\
    0 <= - Konva.y s' <= 3000 - 600.
Proof.
  destruct (pan_offset_clamped startup (Konva.newStage 800 600 false)
              (mkPoint (-2500) 0)) as (s' & H1 & _ & _ & H2 & H3 & _).
  - reflexivity.
  - vm_compute; discriminate.
  - vm_compute; discriminate.
  - exists s'. repeat split; solve [apply H1 | apply H2 | apply H3].
Defined.

(** The first resize event after start-up finds the stage at the origin
    and centres it: in a container of 800 by 600 the offset becomes
    [(-1100, -1200)]. *)
Lemma first_resize_centres :
  let a := onResize (Some (mkDOMRect 800 600)) startup in
  pt_x (panOffset a) == -1100 /\ pt_y (panOffset a) == -1200.
Proof. split; reflexivity. Qed.

(** From the centred offset, a pan by [(-2500, 0)] is clipped to
    [(-2200, -1200)]. *)
Lemma pan_from_centre :
  let a := onResize (Some (mkDOMRect 800 600)) startup in
  let b := dragmove (mkPoint (-2500) 0) a in
  pt_x (panOffset b) == -2200 /\ pt_y (panOffset b) == -1200.
Proof. split; reflexivity. Qed.

(** C5.  At start-up [initializeCanvas] runs before [initializeKonva], so
    [updateCanvasSize] finds no stage and the centring branch is not
    taken: with a virtual canvas of 3000 by 3000 and a container of 800
    by 600 the stage is created at [(0, 0)], not at [(-1100, -1200)],
    and a pan by [(-2500, 0)] from there is clipped to [(-2200, 0)]. *)
Theorem startup_offset_is_origin :
  virtualCanvasWidth startup = 3000 /\
  virtualCanvasHeight startup = 3000 /\
  stage (initializeCanvas (Some (mkDOMRect 800 600)) initialFields) = None /\
  stage startup = Some (Konva.newStage 800 600 false) /\
  panOffset startup = mkPoint 0 0 /\
  ~ (pt_x (panOffset startup) == -1100) /\
  ~ (pt_y (panOffset startup) == -1200) /\
  (let b := dragmove (mkPoint (-2500) 0) startup in
   pt_x (panOffset b) == -2200 /\ pt_y (panOffset b) == 0 /\
   ~ (pt_y (panOffset b) == -1200)).
Proof.
  repeat split; try reflexivity; vm_compute; discriminate.
Qed.

(** What the resize listener does to a stage [s] for a container [rect]
    when the virtual canvas is [vw] by [vh]. *)
Lemma onResize_stage (a : DrawingApp) (s : Konva.Stage) (rect : DOMRect) :
  stage a = Some s ->
  stage (onResize (Some rect) a) =
    Some (if JS.falsy_number (Konva.x s) && JS.falsy_number (Konva.y s)
          then Konva.mkStage
                 (- ((virtualCanvasWidth a - rect_width rect) / 2))
                 (- ((virtualCanvasHeight a - rect_height rect) / 2))
                 (rect_width rect) (rect_height rect) (Konva.draggable s)
          else Konva.mkStage (Konva.x s) (Konva.y s)
                 (rect_width rect) (rect_height rect) (Konva.draggable s)).
Proof.
  intros Hs. unfold onResize, updateCanvasSize.
  cbn [stage with_canvas]. rewrite Hs.
  cbn [Konva.x Konva.y Konva.set_width Konva.set_height].
  destruct (JS.falsy_number (Konva.x s) && JS.falsy_number (Konva.y s));
    reflexivity.
Qed.




End ViewportSpec.

(** ** Placed images *)

Module RegistrySpec.

(** *** The hit test *)

Lemma hit_inside (x y : Q) (img : PlacedImage) :
  hit x y img = true <-> inside x y img.
Proof.
  unfold hit, inside, JS.geb, JS.leb.
  rewrite !andb_true_iff, !Qle_bool_iff. tauto.
Qed.

Lemma hit_outside (x y : Q) (img : PlacedImage) :
  hit x y img = false <-> ~ inside x y img.
Proof.
  rewrite <- hit_inside. destruct (hit x y img); split; congruence.
Qed.

(** *** The array after a hit *)

Lemma set_selected_id (b : bool) (img : PlacedImage) :
  img_id (set_selected b img) = img_id img.
Proof. reflexivity. Qed.

Lemma ids_set_selected (b : bool) (l : list PlacedImage) :
  ids (map (set_selected b) l) = ids l.
Proof. unfold ids. rewrite map_map. reflexivity. Qed.

(** Overwriting an element that the filter drops does not show. *)
Lemma filter_set_nth {A : Type} (f : A -> bool) (l : list A) (i : nat)
    (old new : A) :
  nth_error l i = Some old -> f old = false -> f new = false ->
  filter f (set_nth i new l) = filter f l.
Proof.
  revert i. induction l as [|h t IH]; intros [|i] Hn Ho Hv; cbn in *;
    try discriminate.
  - injection Hn as ->. rewrite Ho, Hv. reflexivity.
  - rewrite (IH i Hn Ho Hv). reflexivity.
Qed.

(** The array left by [selectHit]: the other images in their order, all
    unselected, then the hit image, selected. *)
Lemma selectHit_images (x y : Q) (i : nat) (img : PlacedImage)
    (a : DrawingApp) :
  nth_error (placedImages a) i = Some img ->
  placedImages (selectHit x y i img a) =
    map (set_selected false) (filter (keep_others img) (placedImages a))
      ++ [set_selected true img].
Proof.
  intros Hn. unfold selectHit. cbn [placedImages]. f_equal.
  rewrite (filter_set_nth _ _ i (set_selected false img)).
  - rewrite filter_map_swap. reflexivity.
  - rewrite nth_error_map, Hn. reflexivity.
  - cbn. apply JSFacts.strict_neq_false. reflexivity.
  - cbn. apply JSFacts.strict_neq_false. reflexivity.
Qed.

(** *** The loop *)

(** What the loop returns after looking at the indices below [n]: either
    nothing there is hit and the state is returned as it was, or the
    greatest hit index below [n] is selected. *)
Lemma selectLoop_spec (x y : Q) (a : DrawingApp) (n : nat) :
  (n <= List.length (placedImages a))%nat ->
  (selectLoop x y a n = (false, a) /\
   forall j img, (j < n)%nat -> nth_error (placedImages a) j = Some img ->
                 hit x y img = false) \/
  (exists i img,
      (i < n)%nat /\ nth_error (placedImages a) i = Some img /\
      hit x y img = true /\
      (forall j img', (i < j < n)%nat ->
                      nth_error (placedImages a) j = Some img' ->
                      hit x y img' = false) /\
      selectLoop x y a n = (true, selectHit x y i img a)).
Proof.
  induction n as [|n IH]; intros Hle.
  - left. split; [reflexivity|]. intros j img Hj. lia.
  - cbn [selectLoop].
    destruct (nth_error (placedImages a) n) as [img|] eqn:En.
    + destruct (hit x y img) eqn:Eh.
      * right. exists n, img. repeat split; auto. intros j img' Hj. lia.
      * destruct IH as [[Hr Hall]|(i & im & Hi & Hn & Hh & Habove & Hr)];
          [lia| |].
        -- left. split; [exact Hr|]. intros j img' Hj Hnj.
           destruct (Nat.eq_dec j n) as [->|Hne].
           ++ congruence.
           ++ apply (Hall j); [lia|exact Hnj].
        -- right. exists i, im. repeat split; auto; try lia.
           intros j img' Hj Hnj.
           destruct (Nat.eq_dec j n) as [->|Hne].
           ++ congruence.
           ++ apply (Habove j); [lia|exact Hnj].
    + apply nth_error_None in En. lia.
Qed.

(** A miss: no image contains the point, so the state is returned as it
    was. *)
Lemma selectImageAt_miss (x y : Q) (a : DrawingApp) :
  (forall img, In img (placedImages a) -> ~ inside x y img) ->
  selectImageAt x y a = (false, a).
Proof.
  intros Hnone. unfold selectImageAt.
  destruct (selectLoop_spec x y a (List.length (placedImages a)) (le_n _))
    as [[Hr _]|(i & img & _ & Hn & Hh & _)]; [exact Hr|].
  exfalso. apply (Hnone img).
  - eapply nth_error_In; eauto.
  - now apply hit_inside.
Qed.

(** A hit: the selected image is the one of greatest index that contains
    the point. *)
Lemma selectImageAt_hit (x y : Q) (a : DrawingApp) (i : nat)
    (img : PlacedImage) :
  nth_error (placedImages a) i = Some img ->
  inside x y img ->
  (forall j img', (i < j)%nat -> nth_error (placedImages a) j = Some img' ->
                  ~ inside x y img') ->
  selectImageAt x y a = (true, selectHit x y i img a).
Proof.
  intros Hn Hin Habove. unfold selectImageAt.
  assert (Hlt : (i < List.length (placedImages a))%nat).
  { apply nth_error_Some. congruence. }
  destruct (selectLoop_spec x y a (List.length (placedImages a)) (le_n _))
    as [[_ Hall]|(k & im & Hk & Hnk & Hh & Hab & Hr)].
  - apply hit_inside in Hin. rewrite (Hall i img Hlt Hn) in Hin.
    discriminate.
  - destruct (Nat.lt_trichotomy i k) as [Hik|[->|Hki]].
    + exfalso. apply (Habove k im Hik Hnk). now apply hit_inside.
    + rewrite Hn in Hnk. injection Hnk as <-. exact Hr.
    + apply hit_inside in Hin. rewrite (Hab i img) in Hin; auto.
      discriminate.
Qed.

(** Every [true] answer comes from such an image. *)
Lemma selectImageAt_true (x y : Q) (a a' : DrawingApp) :
  selectImageAt x y a = (true, a') ->
  exists i img,
    nth_error (placedImages a) i = Some img /\ inside x y img /\
    (forall j img', (i < j)%nat -> nth_error (placedImages a) j = Some img' ->
                    ~ inside x y img') /\
    a' = selectHit x y i img a.
Proof.
  unfold selectImageAt. intros Hr.
  destruct (selectLoop_spec x y a (List.length (placedImages a)) (le_n _))
    as [[Hf _]|(k & im & Hk & Hnk & Hh & Hab & Hs)].
  - rewrite Hf in Hr. discriminate.
  - rewrite Hs in Hr. injection Hr as <-.
    exists k, im. split; [exact Hnk|]. split; [now apply hit_inside|].
    split; [|reflexivity].
    intros j img' Hj Hnj. apply hit_outside. apply (Hab j); auto.
    split; [exact Hj|]. apply nth_error_Some. congruence.
Qed.

(** C1.  [selectImageAt] tests a point against a box with inclusive
    bounds, and of the images that contain the point it selects the one
    of greatest index, the top-most: it answers [true] exactly when some
    image contains the point, the image it selects contains the point
    while no image after it does, and it answers [false] and changes
    nothing when no image contains the point.  In particular, of two
    images that both contain the point the earlier one is never the one
    selected, whatever their sizes. *)
Theorem selectImageAt_topmost (x y : Q) (a : DrawingApp) :
  (forall img,
      hit x y img = true <->
      (img_x img <= x <= img_x img + img_width img /\
       img_y img <= y <= img_y img + img_height img)) /\
  (forall i img,
      nth_error (placedImages a) i = Some img -> inside x y img ->
      (forall j img', (i < j)%nat ->
                      nth_error (placedImages a) j = Some img' ->
                      ~ inside x y img') ->
      selectImageAt x y a = (true, selectHit x y i img a) /\
      selectedImageId (selectHit x y i img a) = Some (img_id img) /\
      last (placedImages (selectHit x y i img a)) img
        = set_selected true img) /\
  (forall a',
      selectImageAt x y a = (true, a') ->
      exists i img,
        nth_error (placedImages a) i = Some img /\ inside x y img /\
        (forall j img', (i < j)%nat ->
                        nth_error (placedImages a) j = Some img' ->
                        ~ inside x y img') /\
        a' = selectHit x y i img a) /\
  ((forall img, In img (placedImages a) -> ~ inside x y img) ->
   selectImageAt x y a = (false, a)) /\
  (forall i j imgA imgB,
      (i < j)%nat ->
      nth_error (placedImages a) i = Some imgA ->
      nth_error (placedImages a) j = Some imgB ->
      inside x y imgA -> inside x y imgB ->
      exists k img,
        (j <= k)%nat /\ nth_error (placedImages a) k = Some img /\
        selectImageAt x y a = (true, selectHit x y k img a)).
Proof.
  split; [intros img; apply hit_inside|].
  split.
  { intros i img Hn Hin Habove.
    split; [now apply selectImageAt_hit|].
    split; [reflexivity|].
    rewrite (selectHit_images x y i img a Hn). apply last_last. }
  split; [intros a'; apply selectImageAt_true|].
  split; [apply selectImageAt_miss|].
  intros i j imgA imgB Hij HA HB HinA HinB.
  destruct (selectImageAt x y a) as [[|] a'] eqn:Er.
  - destruct (selectImageAt_true x y a a' Er)
      as (k & img & Hk & Hin & Habove & ->).
    exists k, img. split; [|split; [exact Hk|reflexivity]].
    destruct (Nat.le_gt_cases j k) as [Hle|Hgt]; [exact Hle|].
    exfalso. exact (Habove j imgB Hgt HB HinB).
  - exfalso.
    unfold selectImageAt in Er.
    destruct (selectLoop_spec x y a (List.length (placedImages a)) (le_n _))
      as [[_ Hall]|(k & im & _ & _ & _ & _ & Hs)].
    + apply hit_inside in HinB. rewrite (Hall j imgB) in HinB;
        [discriminate| |exact HB].
      apply nth_error_Some. congruence.
    + rewrite Hs in Er. discriminate.
Qed.

Lemma selectImageAt_topmost_witness :
  selectImageAt 500 500 twoImages
    = (true, selectHit 500 500 1 imageB twoImages) /\
  selectedImageId (selectHit 500 500 1 imageB twoImages) = Some "img_2_2"%string.
Proof.
  destruct (selectImageAt_topmost 500 500 twoImages) as (_ & H & _).
  destruct (H 1%nat imageB) as (H1 & H2 & _).
  - reflexivity.
  - unfold inside; cbn; lra.
  - intros [|[|j]] img' Hj Hn; try lia. destruct j; discriminate.
  - split; [exact H1|exact H2].
Defined.




(** *** Counting the selected images *)

Lemma selectedCount_app (l1 l2 : list PlacedImage) :
  selectedCount (l1 ++ l2) = (selectedCount l1 + selectedCount l2)%nat.
Proof. unfold selectedCount. rewrite filter_app, length_app. reflexivity. Qed.

Lemma selectedCount_cleared (l : list PlacedImage) :
  selectedCount (map (set_selected false) l) = 0%nat.
Proof. induction l as [|h t IH]; [reflexivity|exact IH]. Qed.

Lemma selectedCount_filter (f : PlacedImage -> bool) (l : list PlacedImage) :
  (selectedCount (filter f l) <= selectedCount l)%nat.
Proof.
  unfold selectedCount. induction l as [|h t IH]; cbn; [lia|].
  destruct (f h), (img_selected h) eqn:E; cbn; rewrite ?E; cbn; lia.
Qed.

Lemma selectedCount_zero (l : list PlacedImage) :
  selectedCount l = 0%nat <->
  forall img, In img l -> img_selected img = false.
Proof.
  unfold selectedCount. induction l as [|h t IH]; cbn.
  - split; [intros _ img []|reflexivity].
  - destruct (img_selected h) eqn:E; cbn.
    + split; [discriminate|]. intros H. specialize (H h (or_introl eq_refl)).
      congruence.
    + rewrite IH. split.
      * intros H img [<-|Hin]; auto.
      * intros H img Hin. apply H. now right.
Qed.

Lemma selectHit_count (x y : Q) (i : nat) (img : PlacedImage)
    (a : DrawingApp) :
  nth_error (placedImages a) i = Some img ->
  selectedCount (placedImages (selectHit x y i img a)) = 1%nat.
Proof.
  intros Hn. rewrite (selectHit_images x y i img a Hn).
  rewrite selectedCount_app, selectedCount_cleared. reflexivity.
Qed.

Lemma placeImage_count (img : HTMLImage) (url : string) (pos : Point)
    (now : Z) (rnd : Q) (a : DrawingApp) :
  selectedCount (placedImages (placeImage img url pos now rnd a))
    = selectedCount (placedImages a).
Proof.
  unfold placeImage, newPlacedImage. cbn [placedImages with_placedImages].
  rewrite selectedCount_app. destruct (placedSize img). cbn. lia.
Qed.

(** C2.  When [selectImageAt] answers [true], the image it hit is the
    last element of [placedImages], its [selected] flag is set and it is
    the only image whose flag is set.  Every operation on the registry
    keeps the number of selected images at most one: placing an image,
    [selectImageAt] (hit or miss), [deselectAllImages] and
    [deleteSelectedImage]. *)
Theorem selection_is_single (a : DrawingApp) :
  (forall x y a',
      selectImageAt x y a = (true, a') ->
      exists i img front,
        nth_error (placedImages a) i = Some img /\
        inside x y img /\
        selectedImageId a' = Some (img_id img) /\
        placedImages a' = front ++ [set_selected true img] /\
        img_id (last (placedImages a') img) = img_id img /\
        img_selected (last (placedImages a') img) = true /\
        (forall other, In other front -> img_selected other = false) /\
        selectedCount (placedImages a') = 1%nat) /\
  (atMostOneSelected a ->
   (forall url pos load now rnd,
       atMostOneSelected (placeImageOnCanvas url pos load now rnd a)) /\
   (forall x y, atMostOneSelected (snd (selectImageAt x y a))) /\
   atMostOneSelected (deselectAllImages a) /\
   atMostOneSelected (deleteSelectedImage a)).
Proof.
  split.
  - intros x y a' Hr.
    destruct (selectImageAt_true x y a a' Hr)
      as (i & img & Hn & Hin & _ & ->).
    exists i, img,
      (map (set_selected false) (filter (keep_others img) (placedImages a))).
    rewrite (selectHit_images x y i img a Hn).
    split; [exact Hn|]. split; [exact Hin|]. split; [reflexivity|].
    split; [reflexivity|]. rewrite last_last.
    split; [reflexivity|]. split; [reflexivity|].
    split.
    + apply selectedCount_zero, selectedCount_cleared.
    + rewrite selectedCount_app, selectedCount_cleared. reflexivity.
  - unfold atMostOneSelected. intros Hinv.
    split; [|split; [|split]].
    + intros url pos load now rnd. unfold placeImageOnCanvas.
      destruct (cache_get url (imageCache a)).
      * now rewrite placeImage_count.
      * destruct load; [|exact Hinv]. now rewrite placeImage_count.
    + intros x y. destruct (selectImageAt x y a) as [[|] a'] eqn:Er.
      * destruct (selectImageAt_true x y a a' Er) as (i & img & Hn & _ & _ & ->).
        cbn [snd]. rewrite (selectHit_count x y i img a Hn). lia.
      * unfold selectImageAt in Er.
        destruct (selectLoop_spec x y a _ (le_n (List.length (placedImages a))))
          as [[Hf _]|(k & im & _ & _ & _ & _ & Hs)].
        -- rewrite Hf in Er. injection Er as <-. exact Hinv.
        -- rewrite Hs in Er. discriminate.
    + unfold deselectAllImages. cbn [placedImages with_selectedImageId
                                       with_placedImages].
      rewrite selectedCount_cleared. lia.
    + unfold deleteSelectedImage.
      destruct (selectedImageId a) as [sid|]; [|exact Hinv].
      destruct (JS.truthy_string sid); [|exact Hinv].
      cbn [placedImages with_selectedImageId with_placedImages].
      eapply Nat.le_trans; [apply selectedCount_filter|exact Hinv].
Qed.

Lemma selection_is_single_witness :
  (exists i img front,
      nth_error (placedImages twoImages) i = Some img /\
      inside 500 500 img /\
      selectedImageId (snd (selectImageAt 500 500 twoImages))
        = Some (img_id img) /\
      placedImages (snd (selectImageAt 500 500 twoImages))
        = front ++ [set_selected true img]) /\
  atMostOneSelected (deleteSelectedImage oneSelected).
Proof.
  split.
  - destruct (selection_is_single twoImages) as [H _].
    destruct (H 500 500 (snd (selectImageAt 500 500 twoImages)) eq_refl)
      as (i & img & front & H1 & H2 & H3 & H4 & _).
    exists i, img, front. repeat (split; [assumption|]). assumption.
  - destruct (selection_is_single oneSelected) as [_ H].
    apply H. unfold atMostOneSelected. cbn. lia.
Defined.

(** *** Selection as a reordering *)

(** With distinct ids, the filter by id drops exactly one element. *)
Lemma filter_keep_others (l1 l2 : list PlacedImage) (img : PlacedImage) :
  NoDup (ids (l1 ++ img :: l2)) ->
  filter (keep_others img) (l1 ++ img :: l2) = l1 ++ l2.
Proof.
  intros Hnd. unfold ids in Hnd. rewrite map_app in Hnd. cbn in Hnd.
  pose proof (NoDup_remove_2 _ _ _ Hnd) as Hnotin.
  rewrite filter_app. cbn [filter]. unfold keep_others at 2.
  replace (JS.strict_neq (img_id img) (img_id img)) with false
    by (symmetry; now apply JSFacts.strict_neq_false).
  assert (Hkeep : forall l, (forall o, In o l -> img_id o <> img_id img) ->
                            filter (keep_others img) l = l).
  { intros l Hl. apply forallb_filter_id. apply forallb_forall.
    intros o Ho. apply JSFacts.strict_neq_true. now apply Hl. }
  rewrite !Hkeep; [reflexivity| |].
  - intros o Ho E. apply Hnotin. apply in_or_app. right.
    rewrite <- E. now apply in_map.
  - intros o Ho E. apply Hnotin. apply in_or_app. left.
    rewrite <- E. now apply in_map.
Qed.

Lemma set_selected_idem (b c : bool) (img : PlacedImage) :
  set_selected b (set_selected c img) = set_selected b img.
Proof. reflexivity. Qed.

(** The array after a hit on [img], found between [l1] and [l2], when
    the ids are distinct. *)
Lemma selectHit_split (x y : Q) (i : nat) (img : PlacedImage)
    (a : DrawingApp) (l1 l2 : list PlacedImage) :
  placedImages a = l1 ++ img :: l2 -> List.length l1 = i ->
  NoDup (ids (placedImages a)) ->
  placedImages (selectHit x y i img a) =
    map (set_selected false) (l1 ++ l2) ++ [set_selected true img].
Proof.
  intros Hl Hlen Hnd.
  assert (Hn : nth_error (placedImages a) i = Some img).
  { rewrite Hl, <- Hlen, nth_error_app2, Nat.sub_diag by lia. reflexivity. }
  rewrite (selectHit_images x y i img a Hn).
  rewrite Hl in Hnd |- *. now rewrite filter_keep_others.
Qed.



(** *** Well-formed registries *)

Lemma newId_not_empty (now : Z) (rnd : Q) : newId now rnd <> EmptyString.
Proof. unfold newId. cbn [append]. discriminate. Qed.

Lemma NoDup_ids_filter (f : PlacedImage -> bool) (l : list PlacedImage) :
  NoDup (ids l) -> NoDup (ids (filter f l)).
Proof.
  unfold ids. induction l as [|h t IH]; cbn; intros Hnd; [constructor|].
  inversion Hnd as [|? ? Hnotin Hnd']; subst.
  destruct (f h); cbn; auto. constructor; auto.
  intros Hin. apply Hnotin. apply in_map_iff in Hin.
  destruct Hin as (o & Ho & Hin). apply filter_In in Hin.
  apply in_map_iff. exists o. tauto.
Qed.

Lemma wf_initial : registry_wf initialFields.
Proof.
  split; [constructor|]. split; [intros img []|]. intros img [].
Qed.

(** Placing an image whose id is not in use keeps the registry
    well-formed. *)
Lemma wf_placeImage (img : HTMLImage) (url : string) (pos : Point)
    (now : Z) (rnd : Q) (a : DrawingApp) :
  registry_wf a ->
  ~ In (newId now rnd) (ids (placedImages a)) ->
  registry_wf (placeImage img url pos now rnd a).
Proof.
  intros (Hnd & Hne & Hco) Hfresh.
  set (p := newPlacedImage img url pos now rnd).
  assert (Hid : img_id p = newId now rnd).
  { unfold p, newPlacedImage. destruct (placedSize img). reflexivity. }
  assert (Hsel : img_selected p = false).
  { unfold p, newPlacedImage. destruct (placedSize img). reflexivity. }
  unfold registry_wf, coherent, placeImage.
  cbn [placedImages selectedImageId with_placedImages]. fold p.
  split; [|split].
  - unfold ids. rewrite map_app. cbn [map]. rewrite Hid.
    apply NoDup_rev in Hnd. rewrite <- (rev_involutive (_ ++ _)).
    apply NoDup_rev. rewrite rev_app_distr. cbn. constructor; auto.
    rewrite <- in_rev. exact Hfresh.
  - intros o Ho. apply in_app_or in Ho. destruct Ho as [Ho|[<-|[]]]; auto.
    rewrite Hid. apply newId_not_empty.
  - unfold coherent in Hco. destruct (selectedImageId a) as [sid|].
    + destruct Hco as (Hs & Hin & Hflag). split; [exact Hs|]. split.
      * unfold ids. rewrite map_app. apply in_or_app. now left.
      * intros o Ho. apply in_app_or in Ho. destruct Ho as [Ho|[<-|[]]]; auto.
        rewrite Hsel, Hid. split; [discriminate|].
        intros E. exfalso. apply Hfresh. now rewrite E.
    + intros o Ho. apply in_app_or in Ho. destruct Ho as [Ho|[<-|[]]]; auto.
Qed.

Lemma wf_deselectAllImages (a : DrawingApp) :
  registry_wf a -> registry_wf (deselectAllImages a).
Proof.
  intros (Hnd & Hne & _).
  unfold registry_wf, coherent, deselectAllImages.
  cbn [placedImages selectedImageId with_placedImages with_selectedImageId].
  rewrite ids_set_selected. split; [exact Hnd|]. split.
  - intros o Ho. apply in_map_iff in Ho. destruct Ho as (o' & <- & Ho').
    exact (Hne o' Ho').
  - intros o Ho. apply in_map_iff in Ho. destruct Ho as (o' & <- & _).
    reflexivity.
Qed.

Lemma wf_deleteSelectedImage (a : DrawingApp) :
  registry_wf a -> registry_wf (deleteSelectedImage a).
Proof.
  intros Hwf. pose proof Hwf as (Hnd & Hne & Hco).
  unfold deleteSelectedImage. unfold coherent in Hco.
  destruct (selectedImageId a) as [sid|] eqn:Es; [|exact Hwf].
  destruct (JS.truthy_string sid); [|exact Hwf].
  destruct Hco as (_ & _ & Hflag).
  unfold registry_wf, coherent.
  cbn [placedImages selectedImageId with_placedImages with_selectedImageId].
  split; [now apply NoDup_ids_filter|]. split.
  - intros o Ho. apply filter_In in Ho. now apply Hne.
  - intros o Ho. apply filter_In in Ho. destruct Ho as [Ho Hk].
    apply JSFacts.strict_neq_true in Hk.
    destruct (img_selected o) eqn:E; [|reflexivity].
    exfalso. apply Hk. now apply Hflag.
Qed.

Lemma wf_selectImageAt (x y : Q) (a : DrawingApp) :
  registry_wf a -> registry_wf (snd (selectImageAt x y a)).
Proof.
  intros Hwf. pose proof Hwf as (Hnd & Hne & _).
  destruct (selectImageAt x y a) as [[|] a'] eqn:Er; cbn [snd].
  - destruct (selectImageAt_true x y a a' Er) as (i & img & Hn & _ & _ & ->).
    destruct (nth_error_split _ _ Hn) as (l1 & l2 & Hl & Hlen).
    assert (Himg : In img (placedImages a)) by (eapply nth_error_In; eauto).
    assert (Hperm : Permutation (ids (l1 ++ l2) ++ [img_id img])
                                (ids (placedImages a))).
    { rewrite Hl. unfold ids. rewrite !map_app. cbn [map].
      rewrite <- app_assoc. apply Permutation_app_head.
      symmetry. apply Permutation_cons_append. }
    unfold registry_wf, coherent.
    rewrite (selectHit_split x y i img a l1 l2 Hl Hlen Hnd).
    cbn [selectedImageId selectHit set_selected img_id].
    assert (Hids : ids (map (set_selected false) (l1 ++ l2)
                          ++ [set_selected true img])
                   = ids (l1 ++ l2) ++ [img_id img]).
    { unfold ids. rewrite map_app, map_map. reflexivity. }
    rewrite Hids.
    assert (Hnd' : NoDup (ids (l1 ++ l2) ++ [img_id img])).
    { eapply Permutation_NoDup; [symmetry; exact Hperm|exact Hnd]. }
    split; [exact Hnd'|]. split; [|split; [|split]].
    + intros o Ho. apply in_app_or in Ho. destruct Ho as [Ho|[<-|[]]].
      * apply in_map_iff in Ho. destruct Ho as (o' & <- & Ho').
        apply (Hne o'). rewrite Hl. apply in_app_or in Ho'. apply in_or_app.
        destruct Ho'; [left|right; right]; assumption.
      * exact (Hne img Himg).
    + exact (Hne img Himg).
    + apply in_or_app. right. now left.
    + intros o Ho. apply in_app_or in Ho. destruct Ho as [Ho|[<-|[]]].
      * apply in_map_iff in Ho. destruct Ho as (o' & <- & Ho'). cbn.
        split; [discriminate|]. intros E. exfalso.
        apply NoDup_rev in Hnd'. rewrite rev_app_distr in Hnd'. cbn in Hnd'.
        inversion Hnd' as [|? ? Hnotin _]; subst. apply Hnotin.
        rewrite <- in_rev, <- E. unfold ids. now apply in_map.
      * cbn. tauto.
  - unfold selectImageAt in Er.
    destruct (selectLoop_spec x y a _ (le_n (List.length (placedImages a))))
      as [[Hf _]|(k & im & _ & _ & _ & _ & Hs)].
    + rewrite Hf in Er. injection Er as <-. exact Hwf.
    + rewrite Hs in Er. discriminate.
Qed.

(** *** Deletion *)





(** *** Placement *)

(** The two cases of [placedSize] for an image of positive size: a
    source at least as wide as high gets width 300, a higher one gets
    height 300, and the other edge follows the aspect ratio. *)
Lemma placedSize_cases (img : HTMLImage) :
  0 < naturalWidth img -> 0 < naturalHeight img ->
  (naturalHeight img <= naturalWidth img /\
   placedSize img
     = (maxSize, maxSize / (naturalWidth img / naturalHeight img))) \/
  (naturalWidth img < naturalHeight img /\
   placedSize img
     = (maxSize * (naturalWidth img / naturalHeight img), maxSize)).
Proof.
  intros Hw Hh. unfold placedSize, maxSize.
  set (t := 300 / (naturalWidth img / naturalHeight img)).
  assert (Et : t * naturalWidth img == 300 * naturalHeight img).
  { unfold t. field. split; lra. }
  destruct (JS.gtb t 300) eqn:E.
  - apply JSFacts.gtb_true in E. right. split; [nra|reflexivity].
  - apply JSFacts.gtb_false in E. left. split; [nra|reflexivity].
Qed.

(** *** Ids *)






(** Placing through [placeImageOnCanvas] with an unused id keeps the
    registry well-formed, whatever the cache and the load do. *)
Lemma wf_placeImageOnCanvas (url : string) (pos : Point) (load : LoadEvent)
    (now : Z) (rnd : Q) (a : DrawingApp) :
  registry_wf a ->
  ~ In (newId now rnd) (ids (placedImages a)) ->
  registry_wf (placeImageOnCanvas url pos load now rnd a).
Proof.
  intros Hwf Hfresh. unfold placeImageOnCanvas.
  destruct (cache_get url (imageCache a)) as [img|].
  - now apply wf_placeImage.
  - destruct load as [img|]; [|exact Hwf].
    exact (wf_placeImage img url pos now rnd
             (with_imageCache (cache_set url img (imageCache a)) a)
             Hwf Hfresh).
Qed.

(** Every reachable state is well-formed. *)
Lemma reachable_wf (a : DrawingApp) : reachable a -> registry_wf a.
Proof.
  induction 1 as [|a b _ IH Hstep]; [exact wf_initial|].
  destruct Hstep.
  - now apply wf_placeImageOnCanvas.
  - now apply wf_selectImageAt.
  - now apply wf_deselectAllImages.
  - now apply wf_deleteSelectedImage.
Qed.





End RegistrySpec.

(** ** The proxy *)

Module ProxySpec.

Import Proxy.

(** Fields other than [prompt] do not change the prompt. *)
Lemma fold_on_field_absent (fs : list (string * string)) (p : string) :
  ~ has_prompt_field fs -> fold_left on_field fs p = p.
Proof.
  unfold has_prompt_field. revert p.
  induction fs as [|[name val] t IH]; intros p Habs; [reflexivity|].
  cbn [fold_left on_field].
  destruct (String.eqb_spec name "prompt") as [->|Hne].
  - exfalso. apply Habs. now left.
  - apply IH. intros Hin. apply Habs. now right.
Qed.


(** The last [prompt] field is the prompt. *)
Lemma parse_prompt_last (fs rest : list (string * string)) (v : string) :
  ~ has_prompt_field rest ->
  parse_prompt (fs ++ ("prompt"%string, v) :: rest) = v.
Proof.
  intros Habs. unfold parse_prompt. rewrite fold_left_app.
  cbn [fold_left on_field]. cbn [String.eqb Ascii.eqb Bool.eqb].
  now apply fold_on_field_absent.
Qed.


Section Responses.

Variable base64 : list Byte.byte -> string.




End Responses.


End ProxySpec.


(** ** Further laws of the viewport *)

Module ViewportLaws.

(** X1: Under the size precondition, a stage is left alone by [limitStage]
    exactly when it is inside the bounds, and clamping twice is clamping
    once. *)
Theorem limitStage_idempotent (vw vh : Q) (s : Konva.Stage) :
  Konva.width s <= vw -> Konva.height s <= vh ->
  limitStage vw vh (limitStage vw vh s) = limitStage vw vh s /\
  (in_bounds vw vh s -> limitStage vw vh s = s) /\
  (limitStage vw vh s = s -> in_bounds vw vh s).
Proof.
  intros Hw Hh.
  assert (Hfix : forall t, Konva.width t <= vw -> Konva.height t <= vh ->
                           in_bounds vw vh t -> limitStage vw vh t = t).
  { intros t Tw Th [[Bx1 Bx2] [By1 By2]]. unfold limitStage.
    cbn -[Qle_bool Qplus Qminus Qopp].
    js_cases; try lra. reflexivity. }
  pose proof (ViewportSpec.limitStage_in_bounds vw vh s Hw Hh) as Hb.
  destruct (ViewportSpec.limitStage_size vw vh s) as [Sw Sh].
  split; [|split].
  - apply Hfix; [now rewrite Sw|now rewrite Sh|exact Hb].
  - now apply Hfix.
  - intros E. rewrite <- E. exact Hb.
Qed.

Lemma limitStage_idempotent_witness :
  let s := Konva.mkStage (-2500) 40 800 600 false in
  limitStage 3000 3000 (limitStage 3000 3000 s) = limitStage 3000 3000 s.
Proof.
  intros s.
  apply (limitStage_idempotent 3000 3000 s); vm_compute; discriminate.
Defined.

(** X2: When the stage is wider than the virtual canvas the lower bound is
    positive and lies above the upper bound [0]: the clamp then lands on
    one of the two bounds and the next call moves it to the other, so the
    horizontal offset never settles. *)
Theorem limitStage_oscillates (vw vh : Q) (s : Konva.Stage) :
  vw < Konva.width s ->
  let s1 := limitStage vw vh s in
  let s2 := limitStage vw vh s1 in
  (Konva.x s1 = 0 \/ Konva.x s1 = - (vw - Konva.width s)) /\
  ~ (Konva.x s2 == Konva.x s1) /\
  Konva.x (limitStage vw vh s2) = Konva.x s1.
Proof.
  intros Hw s1 s2. subst s1 s2.
  unfold limitStage; cbn -[Qle_bool Qplus Qminus Qopp].
  js_cases; cbn -[Qle_bool Qplus Qminus Qopp] in *;
    js_cases; cbn -[Qle_bool Qplus Qminus Qopp] in *;
    try lra;
    (split; [auto|split; [lra|]]);
    js_cases; cbn -[Qle_bool Qplus Qminus Qopp] in *; try lra; reflexivity.
Qed.

Lemma limitStage_oscillates_witness :
  let s := Konva.mkStage (-10) 0 3840 600 false in
  ~ (Konva.x (limitStage 3000 3000 (limitStage 3000 3000 s))
     == Konva.x (limitStage 3000 3000 s)).
Proof.
  intros s.
  apply (limitStage_oscillates 3000 3000 s). vm_compute. reflexivity.
Defined.

End ViewportLaws.

Module CentringLaws.

(** X3: When the resize listener finds the stage at the origin and the
    container is not larger than the virtual canvas, the offset it sets is
    inside the bounds and hides as much of the virtual canvas on the left
    as on the right, and as much above as below. *)
Theorem centring_is_balanced (a : DrawingApp) (s : Konva.Stage)
    (rect : DOMRect) :
  stage a = Some s ->
  Konva.x s == 0 -> Konva.y s == 0 ->
  rect_width rect <= virtualCanvasWidth a ->
  rect_height rect <= virtualCanvasHeight a ->
  exists s',
    stage (onResize (Some rect) a) = Some s' /\
    in_bounds (virtualCanvasWidth a) (virtualCanvasHeight a) s' /\
    - Konva.x s' == virtualCanvasWidth a - Konva.width s' - - Konva.x s' /\
    - Konva.y s' == virtualCanvasHeight a - Konva.height s' - - Konva.y s'.
Proof.
  intros Hs Hx Hy Hw Hh.
  rewrite (ViewportSpec.onResize_stage a s rect Hs).
  apply JSFacts.falsy_number_iff in Hx, Hy. rewrite Hx, Hy. cbn [andb].
  eexists. split; [reflexivity|].
  unfold in_bounds. cbn [Konva.x Konva.y Konva.width Konva.height].
  set (vw := virtualCanvasWidth a) in *.
  set (vh := virtualCanvasHeight a) in *.
  set (w := rect_width rect) in *. set (h := rect_height rect) in *.
  assert (Ex : (vw - w) / 2 * 2 == vw - w) by field.
  assert (Ey : (vh - h) / 2 * 2 == vh - h) by field.
  split; [split; split; lra|]. split; lra.
Qed.

Lemma centring_is_balanced_witness :
  exists s',
    stage (onResize (Some (mkDOMRect 1000 800)) startup) = Some s' /\
    in_bounds 3000 3000 s'.
Proof.
  destruct (centring_is_balanced startup (Konva.newStage 800 600 false)
              (mkDOMRect 1000 800)) as (s' & H1 & H2 & _);
    try reflexivity; try (vm_compute; discriminate).
  exists s'. split; assumption.
Defined.

End CentringLaws.

(** ** Further laws of the placed images *)

Module RegistryLaws.

(** X4: A freshly placed image of positive size is on top and contains the
    point it was centred on: a click on that point selects it, whatever
    lies beneath. *)
Theorem click_on_centre_selects_new_image (img : HTMLImage) (url : string)
    (pos : Point) (now : Z) (rnd : Q) (a : DrawingApp) :
  0 < naturalWidth img -> 0 < naturalHeight img ->
  let a' := placeImage img url pos now rnd a in
  let p := newPlacedImage img url pos now rnd in
  fst (selectImageAt (pt_x pos) (pt_y pos) a') = true /\
  selectedImageId (snd (selectImageAt (pt_x pos) (pt_y pos) a'))
    = Some (newId now rnd) /\
  last (placedImages (snd (selectImageAt (pt_x pos) (pt_y pos) a'))) p
    = set_selected true p.
Proof.
  intros Hw Hh a' p.
  assert (Hn : nth_error (placedImages a') (List.length (placedImages a))
               = Some p).
  { unfold a', placeImage. cbn [placedImages with_placedImages].
    rewrite nth_error_app2, Nat.sub_diag by lia. reflexivity. }
  assert (Hin : inside (pt_x pos) (pt_y pos) p).
  { unfold inside, p, newPlacedImage.
    destruct (RegistrySpec.placedSize_cases img Hw Hh) as [[_ E]|[_ E]];
      rewrite E; unfold maxSize;
      cbn [img_x img_y img_width img_height].
    - set (t := 300 / (naturalWidth img / naturalHeight img)).
      assert (Et : t * naturalWidth img == 300 * naturalHeight img)
        by (unfold t; field; split; lra).
      assert (Ht : 0 < t) by nra.
      assert (E2 : t / 2 * 2 == t) by field.
      assert (E3 : 300 / 2 == 150) by reflexivity.
      set (h := t / 2) in *. set (c := 300 / 2) in *. clearbody t h c.
      split; split; lra.
    - set (t := 300 * (naturalWidth img / naturalHeight img)).
      assert (Et : t * naturalHeight img == 300 * naturalWidth img)
        by (unfold t; field; lra).
      assert (Ht : 0 < t) by nra.
      assert (E2 : t / 2 * 2 == t) by field.
      assert (E3 : 300 / 2 == 150) by reflexivity.
      set (h := t / 2) in *. set (c := 300 / 2) in *. clearbody t h c.
      split; split; lra. }
  assert (Hr : selectImageAt (pt_x pos) (pt_y pos) a'
               = (true, selectHit (pt_x pos) (pt_y pos)
                          (List.length (placedImages a)) p a')).
  { apply RegistrySpec.selectImageAt_hit; [exact Hn|exact Hin|].
    intros j img' Hj Hnj. exfalso.
    assert (Hlt : (j < List.length (placedImages a'))%nat)
      by (apply nth_error_Some; congruence).
    unfold a', placeImage in Hlt. cbn [placedImages with_placedImages] in Hlt.
    rewrite length_app in Hlt. cbn in Hlt. lia. }
  rewrite Hr. cbn [fst snd]. split; [reflexivity|]. split.
  - unfold p, newPlacedImage. destruct (placedSize img). reflexivity.
  - rewrite (RegistrySpec.selectHit_images _ _ _ _ _ Hn). apply last_last.
Qed.

Lemma click_on_centre_selects_new_image_witness :
  fst (selectImageAt 500 500
         (placeImage (mkHTMLImage 1600 800) "x.png" (mkPoint 500 500)
            17 (1 # 2) twoImages)) = true.
Proof.
  apply (click_on_centre_selects_new_image (mkHTMLImage 1600 800) "x.png"
           (mkPoint 500 500) 17 (1 # 2) twoImages); reflexivity.
Defined.



(** Filtering by the id of [img] a list that holds no such id changes
    nothing. *)
Lemma filter_keep_others_id (img : PlacedImage) (l : list PlacedImage) :
  filter (keep_others img) (filter (keep_others img) l)
    = filter (keep_others img) l.
Proof.
  apply forallb_filter_id. apply forallb_forall.
  intros o Ho. now apply filter_In in Ho.
Qed.

Lemma keep_others_self (img : PlacedImage) (b : bool) :
  keep_others img (set_selected b img) = false.
Proof. apply JSFacts.strict_neq_false. reflexivity. Qed.

Lemma filter_keep_others_cleared (img : PlacedImage) (l : list PlacedImage) :
  filter (keep_others img) (map (set_selected false) l)
    = map (set_selected false) (filter (keep_others img) l).
Proof. rewrite filter_map_swap. reflexivity. Qed.

(** X6: Selecting an image and deleting it at once removes from the array
    every image that carries the id of the hit image, and nothing else: the
    others stay in their order, unselected, and no id is selected any
    more. *)
Theorem select_then_delete (x y : Q) (a a' : DrawingApp) :
  selectImageAt x y a = (true, a') ->
  (forall img, In img (placedImages a) -> img_id img <> EmptyString) ->
  exists img,
    In img (placedImages a) /\ inside x y img /\
    placedImages (deleteSelectedImage a')
      = map (set_selected false) (filter (keep_others img) (placedImages a)) /\
    selectedImageId (deleteSelectedImage a') = None /\
    selectedCount (placedImages (deleteSelectedImage a')) = 0%nat.
Proof.
  intros Hr Hne.
  destruct (RegistrySpec.selectImageAt_true x y a a' Hr)
    as (i & img & Hn & Hin & _ & ->).
  assert (Himg : In img (placedImages a)) by (eapply nth_error_In; eauto).
  exists img. split; [exact Himg|]. split; [exact Hin|].
  unfold deleteSelectedImage.
  cbn [selectedImageId selectHit set_selected img_id].
  pose proof (Hne img Himg) as Hid.
  apply JSFacts.truthy_string_iff in Hid. rewrite Hid.
  cbn [placedImages selectedImageId with_placedImages with_selectedImageId].
  fold (selectHit x y i img a).
  rewrite (RegistrySpec.selectHit_images x y i img a Hn).
  fold (keep_others img).
  rewrite filter_app, filter_keep_others_cleared, filter_keep_others_id.
  cbn [filter]. rewrite (keep_others_self img true), app_nil_r. split; [reflexivity|]. split; [reflexivity|].
  apply RegistrySpec.selectedCount_cleared.
Qed.

Lemma select_then_delete_witness :
  placedImages (deleteSelectedImage (snd (selectImageAt 500 500 twoImages)))
    = [imageA].
Proof.
  destruct (select_then_delete 500 500 twoImages
              (snd (selectImageAt 500 500 twoImages)) eq_refl)
    as (img & _ & _ & H & _).
  - intros img [<-|[<-|[]]]; discriminate.
  - reflexivity.
Defined.

(** [deselectAllImages] keeps the images where they are and as they are
    but for the flag, leaves none selected, and doing it twice is doing it
    once; [deleteSelectedImage] right after it finds nothing to delete. *)
Theorem deselectAll_idempotent (a : DrawingApp) :
  deselectAllImages (deselectAllImages a) = deselectAllImages a /\
  deleteSelectedImage (deselectAllImages a) = deselectAllImages a /\
  placedImages (deselectAllImages a)
    = map (set_selected false) (placedImages a) /\
  ids (placedImages (deselectAllImages a)) = ids (placedImages a) /\
  selectedCount (placedImages (deselectAllImages a)) = 0%nat /\
  selectedImageId (deselectAllImages a) = None.
Proof.
  unfold deselectAllImages, deleteSelectedImage.
  cbn [placedImages selectedImageId with_placedImages with_selectedImageId].
  repeat split.
  - unfold with_selectedImageId, with_placedImages. cbn. f_equal.
    rewrite map_map. reflexivity.
  - apply RegistrySpec.ids_set_selected.
  - apply RegistrySpec.selectedCount_cleared.
Qed.

(** Clicking the same point twice selects the same image twice: the
    second call returns what the first returned and changes nothing
    more. *)
Theorem select_twice (x y : Q) (a : DrawingApp) :
  selectImageAt x y (snd (selectImageAt x y a)) = selectImageAt x y a.
Proof.
  destruct (selectImageAt x y a) as [[|] a'] eqn:Er; cbn [snd].
  - destruct (RegistrySpec.selectImageAt_true x y a a' Er)
      as (i & img & Hn & Hin & _ & ->).
    set (rest := map (set_selected false)
                   (filter (keep_others img) (placedImages a))).
    assert (Hl : placedImages (selectHit x y i img a)
                 = rest ++ [set_selected true img])
      by apply (RegistrySpec.selectHit_images x y i img a Hn).
    assert (Hn' : nth_error (placedImages (selectHit x y i img a))
                    (List.length rest) = Some (set_selected true img)).
    { rewrite Hl, nth_error_app2, Nat.sub_diag by lia. reflexivity. }
    rewrite (RegistrySpec.selectImageAt_hit x y (selectHit x y i img a)
               (List.length rest) (set_selected true img) Hn').
    + f_equal.
      assert (Hl2 : placedImages (selectHit x y (List.length rest)
                                    (set_selected true img)
                                    (selectHit x y i img a))
                    = rest ++ [set_selected true img]).
      { rewrite (RegistrySpec.selectHit_images _ _ _ _ _ Hn'), Hl.
        rewrite filter_app. cbn [filter].
        change (keep_others (set_selected true img)) with (keep_others img).
        rewrite (keep_others_self img true), app_nil_r. f_equal. unfold rest.
        rewrite filter_keep_others_cleared, filter_keep_others_id, map_map.
        reflexivity. }
      unfold selectHit at 1. fold (selectHit x y i img a).
      unfold selectHit at 1 in Hl2. cbn [placedImages] in Hl2.
      rewrite Hl2. unfold selectHit at 2. cbn [placedImages] in Hl.
      unfold selectHit. cbn [placedImages] in *.
      rewrite <- Hl. reflexivity.
    + exact Hin.
    + intros j img' Hj Hnj. exfalso.
      assert (Hlt : (j < List.length (placedImages (selectHit x y i img a)))%nat)
        by (apply nth_error_Some; congruence).
      rewrite Hl, length_app in Hlt. cbn in Hlt. lia.
  - unfold selectImageAt in Er.
    destruct (RegistrySpec.selectLoop_spec x y a _
                (le_n (List.length (placedImages a))))
      as [[Hf _]|(k & im & _ & _ & _ & _ & Hs)].
    + rewrite Hf in Er. injection Er as <-. exact Hf.
    + rewrite Hs in Er. discriminate.
Qed.

End RegistryLaws.

(** ** The image cache *)

Module CacheLaws.

Lemma cache_get_set_same (k : string) (v : HTMLImage)
    (c : list (string * HTMLImage)) :
  cache_get k (cache_set k v c) = Some v.
Proof.
  induction c as [|[k' v'] t IH]; cbn.
  - now rewrite String.eqb_refl.
  - destruct (String.eqb k k') eqn:E; cbn; rewrite ?E, ?String.eqb_refl; auto.
Qed.

Lemma cache_get_set_other (k k' : string) (v : HTMLImage)
    (c : list (string * HTMLImage)) :
  k' <> k -> cache_get k' (cache_set k v c) = cache_get k' c.
Proof.
  intros Hne. apply String.eqb_neq in Hne.
  induction c as [|[k0 v0] t IH]; cbn.
  - now rewrite Hne.
  - destruct (String.eqb k k0) eqn:E; cbn.
    + apply String.eqb_eq in E. subst k0. now rewrite Hne.
    + now rewrite IH.
Qed.

(** X7: An image that has loaded once is placed from the cache from then on:
    a later placement of the same url succeeds with the cached image
    whatever the browser answers to a new load, even an error; the cache
    entries of the other urls are not touched.  A failed load of an
    uncached url places nothing and caches nothing. *)
Theorem loaded_image_is_reused (url : string) (pos pos' : Point)
    (img : HTMLImage) (now now' : Z) (rnd rnd' : Q) (a : DrawingApp) :
  cache_get url (imageCache a) = None ->
  let a1 := placeImageOnCanvas url pos (onload img) now rnd a in
  cache_get url (imageCache a1) = Some img /\
  (forall other, other <> url ->
                 cache_get other (imageCache a1)
                 = cache_get other (imageCache a)) /\
  (forall load,
      placedImages (placeImageOnCanvas url pos' load now' rnd' a1)
      = placedImages a1 ++ [newPlacedImage img url pos' now' rnd']) /\
  placeImageOnCanvas url pos onerror now rnd a = a.
Proof.
  intros Hc a1.
  assert (E1 : imageCache a1 = cache_set url img (imageCache a)).
  { unfold a1, placeImageOnCanvas. rewrite Hc. reflexivity. }
  assert (G : cache_get url (imageCache a1) = Some img)
    by (rewrite E1; apply cache_get_set_same).
  split; [exact G|]. split; [|split].
  - intros other Hne. rewrite E1. now apply cache_get_set_other.
  - intros load. unfold placeImageOnCanvas at 1. rewrite G. reflexivity.
  - unfold placeImageOnCanvas. rewrite Hc. reflexivity.
Qed.

Lemma loaded_image_is_reused_witness :
  let a1 := placeImageOnCanvas "x.png" (mkPoint 500 500)
              (onload (mkHTMLImage 1600 800)) 17 (1 # 2) startup in
  List.length
    (placedImages (placeImageOnCanvas "x.png" (mkPoint 10 10) onerror
                     18 (1 # 4) a1)) = 2%nat.
Proof.
  intros a1.
  destruct (loaded_image_is_reused "x.png" (mkPoint 500 500) (mkPoint 10 10)
              (mkHTMLImage 1600 800) 17 18 (1 # 2) (1 # 4) startup eq_refl)
    as (_ & _ & H & _).
  fold a1 in H. rewrite (H onerror). reflexivity.
Defined.

End CacheLaws.

(** ** Sizes: resizing an upload, fitting the PDF page, cutting the title *)

Module SizingSpec.

Import Sizing.

(** [Math.round] is within a half of its argument. *)
Lemma Math_round_near (q : Q) :
  q - (1 # 2) < inject_Z (Math_round q) /\ inject_Z (Math_round q) <= q + (1 # 2).
Proof.
  unfold Math_round.
  pose proof (Qfloor_le (q + (1 # 2))) as H1.
  pose proof (Qlt_floor (q + (1 # 2))) as H2.
  rewrite inject_Z_plus in H2. change (inject_Z 1) with 1 in H2.
  set (f := inject_Z (Qfloor (q + (1 # 2)))) in *. clearbody f.
  split; lra.
Qed.

(** [Math.round] of a number below an integer plus a half stays at or
    below the integer. *)
Lemma Math_round_le (q : Q) (m : Z) :
  q <= inject_Z m -> inject_Z (Math_round q) <= inject_Z m.
Proof.
  intros H. rewrite <- Zle_Qle.
  destruct (Math_round_near q) as [_ H2].
  assert (H3 : inject_Z (Math_round q) < inject_Z (m + 1)).
  { rewrite inject_Z_plus. change (inject_Z 1) with 1.
    set (f := inject_Z (Math_round q)) in *. clearbody f.
    set (g := inject_Z m) in *. clearbody g. lra. }
  rewrite <- Zlt_Qlt in H3. lia.
Qed.

Lemma Math_round_nonneg (q : Q) : 0 <= q -> 0 <= inject_Z (Math_round q).
Proof.
  intros H. unfold Math_round. change 0 with (inject_Z 0).
  rewrite <- Zle_Qle. rewrite <- (Qfloor_Z 0).
  apply Qfloor_resp_le. change (inject_Z 0) with 0. lra.
Qed.

Lemma leb_true (a b : Q) : JS.leb a b = true -> a <= b.
Proof. apply Qle_bool_iff. Qed.

Lemma leb_false (a b : Q) : JS.leb a b = false -> b < a.
Proof.
  unfold JS.leb. intros H. apply Qnot_le_lt. intros Hle.
  apply Qle_bool_iff in Hle. congruence.
Qed.

(** An image inside the limits is handed back as it is: no canvas is
    made, so neither a missing 2d context nor a failing [toBlob] can
    reject the promise. *)
Theorem small_image_is_kept (env : Browser) (w h maxWidth maxHeight : Q) :
  file_read env = read_data_url ->
  image_load env = image_loaded w h ->
  w <= maxWidth -> h <= maxHeight ->
  resizeImageFile env maxWidth maxHeight = resolve_original.
Proof.
  intros Hr Hl Hw Hh. unfold resizeImageFile, resizedDimensions.
  rewrite Hr, Hl. unfold JS.leb.
  apply Qle_bool_iff in Hw, Hh. rewrite Hw, Hh. reflexivity.
Qed.

Lemma small_image_is_kept_witness :
  resizeImageFile (mkBrowser read_data_url (image_loaded 800 600) false false)
    1024 1024 = resolve_original.
Proof.
  apply (small_image_is_kept _ 800 600); try reflexivity;
    vm_compute; discriminate.
Defined.

(** X8: With the same integral limit [m] for both sides, as the only caller
    has it, an image of positive size that exceeds the limit is scaled
    into the square: the longer side becomes [m], the other side is the
    exactly scaled length rounded to the nearest integer, and neither side
    exceeds [m]. *)
Theorem resize_fits_square (w h : Q) (m : Z) :
  0 < w -> 0 < h -> (0 < m)%Z ->
  ~ (w <= inject_Z m /\ h <= inject_Z m) ->
  let M := inject_Z m in
  exists w' h',
    resizedDimensions w h M M = resize_to w' h' /\
    0 <= w' <= M /\ 0 <= h' <= M /\
    (h < w ->
     w' = M /\
     (h * M) / w - (1 # 2) < h' /\ h' <= (h * M) / w + (1 # 2)) /\
    (w <= h ->
     h' = M /\
     (w * M) / h - (1 # 2) < w' /\ w' <= (w * M) / h + (1 # 2)).
Proof.
  intros Hw Hh Hm Hbig M.
  assert (HM : 0 < M).
  { unfold M. change 0 with (inject_Z 0). now rewrite <- Zlt_Qlt. }
  unfold resizedDimensions.
  destruct (JS.leb w M && JS.leb h M) eqn:E1.
  { exfalso. apply andb_true_iff in E1. destruct E1 as [A B].
    apply leb_true in A, B. now apply Hbig. }
  destruct (JS.gtb w h && JS.gtb w M) eqn:E2.
  - apply andb_true_iff in E2. destruct E2 as [A B].
    apply JSFacts.gtb_true in A, B.
    set (x := (h * M) / w).
    assert (Ex : x * w == h * M) by (unfold x; field; lra).
    assert (Hx0 : 0 <= x) by nra.
    assert (HxM : x <= M) by nra.
    destruct (Math_round_near x) as [N1 N2].
    pose proof (Math_round_le x m HxM) as N3.
    pose proof (Math_round_nonneg x Hx0) as N4.
    exists M, (inject_Z (Math_round x)).
    split; [reflexivity|]. fold M in N3.
    split; [split; lra|]. split; [split; assumption|].
    split; [intros _; split; [reflexivity|split; assumption]|].
    intros C. lra.
  - apply andb_false_iff in E2.
    destruct (JS.gtb h M) eqn:E3.
    + apply JSFacts.gtb_true in E3.
      assert (Hwh : w <= h).
      { destruct E2 as [A|A]; apply JSFacts.gtb_false in A; lra. }
      set (x := (w * M) / h).
      assert (Ex : x * h == w * M) by (unfold x; field; lra).
      assert (Hx0 : 0 <= x) by nra.
      assert (HxM : x <= M) by nra.
      destruct (Math_round_near x) as [N1 N2].
      pose proof (Math_round_le x m HxM) as N3.
      pose proof (Math_round_nonneg x Hx0) as N4.
      exists (inject_Z (Math_round x)), M.
      split; [reflexivity|]. fold M in N3.
      split; [split; assumption|]. split; [split; lra|].
      split; [intros C; lra|].
      intros _. split; [reflexivity|split; assumption].
    + exfalso. apply JSFacts.gtb_false in E3.
      apply andb_false_iff in E1.
      assert (HwM : M < w).
      { destruct E1 as [A|A]; apply leb_false in A; lra. }
      destruct E2 as [A|A]; apply JSFacts.gtb_false in A; lra.
Qed.

Lemma resize_fits_square_witness :
  exists w' h',
    resizedDimensions 4000 3000 1024 1024 = resize_to w' h' /\
    0 <= w' <= 1024 /\ 0 <= h' <= 1024.
Proof.
  destruct (resize_fits_square 4000 3000 1024) as (w' & h' & E & B1 & B2 & _).
  - reflexivity.
  - reflexivity.
  - reflexivity.
  - intros [H _]. vm_compute in H. apply H. reflexivity.
  - exists w', h'. split; [exact E|]. split; assumption.
Defined.

(** X9: An image more than [2 * m] times as wide as high is resized to a
    height of zero. *)
Theorem thin_image_collapses (w h : Q) (m : Z) :
  0 < h -> (0 < m)%Z -> inject_Z m < w -> 2 * h * inject_Z m < w ->
  resizedDimensions w h (inject_Z m) (inject_Z m)
    = resize_to (inject_Z m) (inject_Z 0).
Proof.
  intros Hh Hm HMw Hthin. set (M := inject_Z m) in *.
  assert (HM : 0 < M).
  { unfold M. change 0 with (inject_Z 0). now rewrite <- Zlt_Qlt. }
  assert (HM1 : 1 <= M).
  { unfold M. change 1 with (inject_Z 1). rewrite <- Zle_Qle. lia. }
  assert (Hhw : h < w) by nra.
  unfold resizedDimensions.
  rewrite (proj2 (andb_false_iff _ _)).
  2:{ left. destruct (JS.leb w M) eqn:E; [|reflexivity].
      apply leb_true in E. lra. }
  unfold JS.gtb. rewrite (JSFacts.ltb_intro h w Hhw), (JSFacts.ltb_intro M w HMw).
  cbn [andb]. do 2 f_equal.
  set (x := (h * M) / w).
  assert (Ex : x * w == h * M) by (unfold x; field; lra).
  assert (Hx0 : 0 <= x) by nra.
  assert (Hx1 : x < 1 # 2) by nra.
  destruct (Math_round_near x) as [N1 N2].
  pose proof (Math_round_nonneg x Hx0) as N4.
  assert (N5 : inject_Z (Math_round x) < inject_Z 1).
  { change (inject_Z 1) with 1. lra. }
  rewrite <- Zlt_Qlt in N5. change 0 with (inject_Z 0) in N4.
  rewrite <- Zle_Qle in N4. lia.
Qed.

Lemma thin_image_collapses_witness :
  resizedDimensions 5000 1 1024 1024 = resize_to 1024 0.
Proof.
  apply (thin_image_collapses 5000 1 1024); reflexivity.
Defined.



Lemma substring_length (n : nat) (s : string) :
  (n <= String.length s)%nat -> String.length (String.substring 0 n s) = n.
Proof.
  revert s. induction n as [|n IH]; intros [|c s] H; cbn in *;
    try reflexivity; try lia.
  f_equal. apply IH. lia.
Qed.

Lemma append_length (s1 s2 : string) :
  String.length (s1 ++ s2)%string = (String.length s1 + String.length s2)%nat.
Proof. induction s1 as [|c t IH]; cbn; [reflexivity|now rewrite IH]. Qed.

Lemma substring_prefix (n : nat) (s : string) :
  String.prefix (String.substring 0 n s) s = true.
Proof.
  revert s. induction n as [|n IH]; intros [|c s]; cbn; try reflexivity.
  destruct (ascii_dec c c) as [_|C]; [apply IH|now elim C].
Qed.

(** X11: The title of a mock image never has more than 50 characters: a prompt
    of at most 50 characters is shown as it is, a longer one is cut to its
    first 47 characters followed by three dots, 50 characters in all. *)
Theorem displayPrompt_at_most_50 (prompt : string) :
  (String.length (displayPrompt prompt) <= 50)%nat /\
  ((String.length prompt <= 50)%nat -> displayPrompt prompt = prompt) /\
  ((50 < String.length prompt)%nat ->
   String.length (displayPrompt prompt) = 50%nat /\
   exists head,
     displayPrompt prompt = (head ++ "...")%string /\
     String.length head = 47%nat /\
     String.prefix head prompt = true).
Proof.
  unfold displayPrompt.
  destruct (50 <? String.length prompt)%nat eqn:E.
  - apply Nat.ltb_lt in E.
    assert (L : String.length (String.substring 0 47 prompt) = 47%nat)
      by (apply substring_length; lia).
    split; [rewrite append_length, L; cbn; lia|].
    split; [intros C; lia|]. intros _.
    split; [rewrite append_length, L; reflexivity|].
    exists (String.substring 0 47 prompt).
    split; [reflexivity|]. split; [exact L|apply substring_prefix].
  - apply Nat.ltb_ge in E. split; [exact E|].
    split; [reflexivity|]. intros C. lia.
Qed.

End SizingSpec.

(** ** Colours *)

Module ColorSpec.

Import Color.

Lemma hex_value_in (c : ascii) (v : Z) :
  hex_value c = Some v -> In c hex_chars.
Proof.
  destruct c as [[] [] [] [] [] [] [] []]; vm_compute; intros H;
    try discriminate; tauto.
Qed.

Lemma in_byte_values (n : Z) : (0 <= n <= 255)%Z -> In n byte_values.
Proof.
  intros H. unfold byte_values. rewrite <- (Z2Nat.id n) by lia.
  apply in_map, in_seq. lia.
Qed.

(** Two hexadecimal digits are read as the number they write. *)
Lemma parse_two (c1 c2 : ascii) (v1 v2 : Z) :
  hex_value c1 = Some v1 -> hex_value c2 = Some v2 ->
  parseInt16 (String c1 (String c2 EmptyString)) = Some (16 * v1 + v2)%Z /\
  (0 <= 16 * v1 + v2 <= 255)%Z.
Proof.
  intros H1 H2.
  assert (Hall : forallb (fun a => forallb (fun b =>
            match hex_value a, hex_value b with
            | Some x, Some y =>
                match parseInt16 (String a (String b EmptyString)) with
                | Some n => (n =? 16 * x + y)%Z && (0 <=? n)%Z && (n <=? 255)%Z
                | None => false
                end
            | _, _ => false
            end) hex_chars) hex_chars = true) by (vm_compute; reflexivity).
  rewrite forallb_forall in Hall.
  specialize (Hall c1 (hex_value_in c1 v1 H1)).
  rewrite forallb_forall in Hall.
  specialize (Hall c2 (hex_value_in c2 v2 H2)).
  rewrite H1, H2 in Hall.
  destruct (parseInt16 (String c1 (String c2 EmptyString))) as [n|];
    [|discriminate].
  apply andb_true_iff in Hall. destruct Hall as [Hall C].
  apply andb_true_iff in Hall. destruct Hall as [A B].
  apply Z.eqb_eq in A. apply Z.leb_le in B, C. subst n. split; [reflexivity|lia].
Qed.

(** A number from 0 to 255 is written with two lower-case digits that
    read back as the number. *)
Lemma print_byte (n : Z) :
  (0 <= n <= 255)%Z ->
  exists c1 c2,
    padZero (toString16 (Some n)) = String c1 (String c2 EmptyString) /\
    is_lower_hex c1 = true /\ is_lower_hex c2 = true /\
    parseInt16 (String c1 (String c2 EmptyString)) = Some n.
Proof.
  intros H.
  assert (Hall : forallb (fun k =>
            match padZero (toString16 (Some k)) with
            | String c1 (String c2 EmptyString) =>
                is_lower_hex c1 && is_lower_hex c2 &&
                match parseInt16 (String c1 (String c2 EmptyString)) with
                | Some m => (m =? k)%Z
                | None => false
                end
            | _ => false
            end) byte_values = true) by (vm_compute; reflexivity).
  rewrite forallb_forall in Hall. specialize (Hall n (in_byte_values n H)).
  destruct (padZero (toString16 (Some n))) as [|c1 [|c2 [|c3 t]]];
    try discriminate.
  exists c1, c2. split; [reflexivity|].
  apply andb_true_iff in Hall. destruct Hall as [Hall C].
  apply andb_true_iff in Hall. destruct Hall as [A B].
  destruct (parseInt16 (String c1 (String c2 EmptyString))) as [m|];
    [|discriminate].
  apply Z.eqb_eq in C. subst m. auto.
Qed.

Lemma is_lower_hex_is_hex (c : ascii) : is_lower_hex c = true -> is_hex c = true.
Proof. unfold is_lower_hex. intros H. now apply andb_true_iff in H. Qed.

Lemma is_hex_value (c : ascii) :
  is_hex c = true -> exists v, hex_value c = Some v.
Proof. unfold is_hex. destruct (hex_value c) as [v|]; [eauto|discriminate]. Qed.

Lemma clampZ_range (v : Z) : (0 <= clampZ v <= 255)%Z.
Proof. unfold clampZ. lia. Qed.

(** The channels of a valid colour. *)
Lemma channels_valid (color : string) :
  valid_color color = true ->
  exists r g b,
    channels color = (Some r, Some g, Some b) /\
    (0 <= r <= 255)%Z /\ (0 <= g <= 255)%Z /\ (0 <= b <= 255)%Z.
Proof.
  destruct color as [|h [|a [|b [|c [|d [|e [|f [|x t]]]]]]]];
    try discriminate.
  cbn [valid_color]. intros H.
  repeat (apply andb_true_iff in H; let K := fresh "K" in destruct H as [H K]).
  apply Ascii.eqb_eq in H. subst h.
  destruct (is_hex_value _ K4) as [va Ha].
  destruct (is_hex_value _ K3) as [vb Hb].
  destruct (is_hex_value _ K2) as [vc Hc].
  destruct (is_hex_value _ K1) as [vd Hd].
  destruct (is_hex_value _ K0) as [ve He].
  destruct (is_hex_value _ K) as [vf Hf].
  destruct (parse_two a b va vb Ha Hb) as [P1 R1].
  destruct (parse_two c d vc vd Hc Hd) as [P2 R2].
  destruct (parse_two e f ve vf He Hf) as [P3 R3].
  exists (16 * va + vb)%Z, (16 * vc + vd)%Z, (16 * ve + vf)%Z.
  unfold channels. cbn [remove_first_hash Ascii.eqb Bool.eqb].
  unfold substring. cbn [Nat.sub String.substring].
  rewrite P1, P2, P3. auto.
Qed.

(** What is written for three numbers is a valid colour in lower case
    whose channels are the numbers, clamped. *)
Lemma render_clamped (r g b : Z) :
  let s := render (clamp (Some r)) (clamp (Some g)) (clamp (Some b)) in
  lower_color s = true /\ valid_color s = true /\
  channels s = (Some (clampZ r), Some (clampZ g), Some (clampZ b)).
Proof.
  cbn [clamp]. fold (clampZ r) (clampZ g) (clampZ b). unfold render.
  destruct (print_byte _ (clampZ_range r)) as (r1 & r2 & -> & A1 & A2 & PR).
  destruct (print_byte _ (clampZ_range g)) as (g1 & g2 & -> & B1 & B2 & PG).
  destruct (print_byte _ (clampZ_range b)) as (b1 & b2 & -> & C1 & C2 & PB).
  cbn [append lower_color valid_color Ascii.eqb Bool.eqb].
  rewrite A1, A2, B1, B2, C1, C2.
  rewrite !is_lower_hex_is_hex by assumption.
  split; [reflexivity|]. split; [reflexivity|].
  unfold channels. cbn [remove_first_hash Ascii.eqb Bool.eqb].
  unfold substring. cbn [Nat.sub String.substring].
  rewrite PR, PG, PB. reflexivity.
Qed.

Lemma adjustColor_render (color : string) (amount : Z) :
  adjustColor color amount =
    let '(r, g, b) := channels color in
    render (clamp (plus r amount)) (clamp (plus g amount))
      (clamp (plus b amount)).
Proof. unfold adjustColor. destruct (channels color) as [[r g] b]. reflexivity. Qed.

(** X12: For a colour written as [#] and six hexadecimal digits and any
    integral amount, [adjustColor] writes again [#] and six digits, in
    lower case, and each channel of the result is the channel of the
    colour plus the amount, clamped to the range from 0 to 255. *)
Theorem adjustColor_valid (color : string) (amount : Z) :
  valid_color color = true ->
  exists r g b,
    channels color = (Some r, Some g, Some b) /\
    lower_color (adjustColor color amount) = true /\
    valid_color (adjustColor color amount) = true /\
    String.length (adjustColor color amount) = 7%nat /\
    channels (adjustColor color amount)
      = (Some (clampZ (r + amount)), Some (clampZ (g + amount)),
         Some (clampZ (b + amount))).
Proof.
  intros Hv.
  destruct (channels_valid color Hv) as (r & g & b & Hc & _).
  exists r, g, b. split; [exact Hc|].
  rewrite adjustColor_render, Hc. cbn [plus].
  destruct (render_clamped (r + amount) (g + amount) (b + amount))
    as (L & V & C).
  split; [exact L|]. split; [exact V|]. split; [|exact C].
  destruct (render _ _ _) as [|h [|a1 [|a2 [|a3 [|a4 [|a5 [|a6 [|x t]]]]]]]];
    try discriminate. reflexivity.
Qed.

Lemma adjustColor_valid_witness :
  exists r g b,
    channels "#f5e1e5" = (Some r, Some g, Some b) /\
    lower_color (adjustColor "#f5e1e5" (-20)) = true.
Proof.
  destruct (adjustColor_valid "#f5e1e5" (-20) eq_refl)
    as (r & g & b & H1 & H2 & _).
  exists r, g, b. split; assumption.
Defined.

(** X13: Two adjustments in the same direction add up: darkening (or
    lightening) a valid colour twice is darkening (or lightening) it once
    by the sum.  An adjustment by zero leaves a colour written in lower
    case as it is. *)
Theorem adjustColor_adds_up (color : string) (a b : Z) :
  valid_color color = true ->
  ((0 <= a)%Z /\ (0 <= b)%Z) \/ ((a <= 0)%Z /\ (b <= 0)%Z) ->
  adjustColor (adjustColor color a) b = adjustColor color (a + b) /\
  (lower_color color = true -> adjustColor color 0 = color).
Proof.
  intros Hv Hsign.
  destruct (channels_valid color Hv) as (r & g & bl & Hc & Rr & Rg & Rb).
  split.
  - destruct (render_clamped (r + a) (g + a) (bl + a)) as (_ & _ & C).
    rewrite (adjustColor_render (adjustColor color a) b).
    rewrite (adjustColor_render color a), Hc. cbn [plus]. rewrite C.
    rewrite (adjustColor_render color (a + b)), Hc. cbn [plus clamp].
    fold (clampZ (clampZ (r + a) + b)) (clampZ (clampZ (g + a) + b))
         (clampZ (clampZ (bl + a) + b)).
    fold (clampZ (r + (a + b))) (clampZ (g + (a + b))) (clampZ (bl + (a + b))).
    assert (K : forall v, (0 <= v <= 255)%Z ->
                          clampZ (clampZ (v + a) + b) = clampZ (v + (a + b)))
      by (intros v Hvr; unfold clampZ; lia).
    now rewrite !K.
  - intros Hl.
    destruct color as [|h [|c1 [|c2 [|c3 [|c4 [|c5 [|c6 [|x t]]]]]]]];
      try discriminate.
    cbn [lower_color] in Hl.
    repeat (apply andb_true_iff in Hl;
            let K := fresh "K" in destruct Hl as [Hl K]).
    apply Ascii.eqb_eq in Hl. subst h.
    assert (Hall : forallb (fun x => forallb (fun y =>
              if is_lower_hex x && is_lower_hex y
              then String.eqb
                     (padZero (toString16
                        (clamp (plus (parseInt16
                           (String x (String y EmptyString))) 0))))
                     (String x (String y EmptyString))
              else true) hex_chars) hex_chars = true)
      by (vm_compute; reflexivity).
    assert (P : forall x y, is_lower_hex x = true -> is_lower_hex y = true ->
                  padZero (toString16 (clamp (plus (parseInt16
                     (String x (String y EmptyString))) 0)))
                  = String x (String y EmptyString)).
    { intros x y Hx Hy.
      destruct (is_hex_value x (is_lower_hex_is_hex x Hx)) as [vx Ex].
      destruct (is_hex_value y (is_lower_hex_is_hex y Hy)) as [vy Ey].
      rewrite forallb_forall in Hall.
      specialize (Hall x (hex_value_in x vx Ex)).
      rewrite forallb_forall in Hall.
      specialize (Hall y (hex_value_in y vy Ey)).
      rewrite Hx, Hy in Hall. cbn [andb] in Hall.
      now apply String.eqb_eq in Hall. }
    unfold adjustColor, channels.
    cbn [remove_first_hash Ascii.eqb Bool.eqb].
    unfold substring. cbn [Nat.sub String.substring].
    rewrite !P by assumption. reflexivity.
Qed.

Lemma adjustColor_adds_up_witness :
  adjustColor (adjustColor "#f5e1e5" (-20)) (-20) = adjustColor "#f5e1e5" (-40).
Proof.
  apply (adjustColor_adds_up "#f5e1e5" (-20) (-20) eq_refl).
  right. split; discriminate.
Defined.

Lemma substring_beyond (n m : nat) (s : string) :
  (String.length s <= n)%nat -> String.substring n m s = EmptyString.
Proof.
  revert s. induction n as [|n IH]; intros [|c t] H; cbn in *.
  - now destruct m.
  - lia.
  - reflexivity.
  - apply IH. lia.
Qed.

Lemma append_assoc (s1 s2 s3 : string) :
  (s1 ++ (s2 ++ s3) = (s1 ++ s2) ++ s3)%string.
Proof. induction s1 as [|c t IH]; cbn; [reflexivity|now rewrite IH]. Qed.

Lemma hex_digits_length (fuel : nat) (n : Z) (acc : string) :
  (String.length acc <= String.length (hex_digits fuel n acc))%nat.
Proof.
  revert n acc. induction fuel as [|f IH]; intros n acc; cbn; [lia|].
  destruct (n / 16 =? 0)%Z; cbn; [lia|].
  eapply Nat.le_trans; [|apply IH]. cbn. lia.
Qed.

Lemma toString16_length (v : option Z) : (1 <= String.length (toString16 v))%nat.
Proof.
  destruct v as [n|]; cbn [toString16]; [|cbn; lia].
  destruct (n <? 0)%Z; cbn [String.length hex_digits].
  - destruct (- n / 16 =? 0)%Z; cbn; [lia|].
    pose proof (hex_digits_length (Z.to_nat (Z.log2 (- n))) (- n / 16)
                  (String (hex_digit (- n mod 16)) "")) as H.
    cbn in H. lia.
  - destruct (n / 16 =? 0)%Z; cbn; [lia|].
    pose proof (hex_digits_length (Z.to_nat (Z.log2 n)) (n / 16)
                  (String (hex_digit (n mod 16)) "")) as H.
    cbn in H. lia.
Qed.

Lemma padZero_length (v : option Z) :
  (2 <= String.length (padZero (toString16 v)))%nat.
Proof.
  unfold padZero. pose proof (toString16_length v) as H.
  destruct (String.length (toString16 v) <? 2)%nat eqn:E.
  - cbn. lia.
  - now apply Nat.ltb_ge in E.
Qed.

Lemma valid_color_length (s : string) :
  valid_color s = true -> String.length s = 7%nat.
Proof.
  destruct s as [|h [|a1 [|a2 [|a3 [|a4 [|a5 [|a6 [|x t]]]]]]]];
    try discriminate. reflexivity.
Qed.

(** X14: A colour with fewer than five characters after the [#], such as the
    short form [#fff], has no blue channel: the result ends in [NaN] and
    is not a colour. *)
Theorem adjustColor_short_input (color : string) (amount : Z) :
  (String.length (remove_first_hash color) <= 4)%nat ->
  (exists head, adjustColor color amount = (head ++ "NaN")%string) /\
  valid_color (adjustColor color amount) = false.
Proof.
  intros Hlen.
  assert (Hb : parseInt16 (substring 4 6 (remove_first_hash color)) = None).
  { unfold substring. rewrite substring_beyond by exact Hlen. reflexivity. }
  rewrite adjustColor_render. unfold channels. rewrite Hb.
  cbn [plus clamp]. unfold render.
  change (padZero (toString16 None)) with "NaN"%string.
  set (p1 := padZero _). set (p2 := padZero _).
  assert (L1 : (2 <= String.length p1)%nat) by apply padZero_length.
  assert (L2 : (2 <= String.length p2)%nat) by apply padZero_length.
  split.
  - exists (String "#" (p1 ++ p2)). cbn [append]. f_equal. apply append_assoc.
  - destruct (valid_color _) eqn:V; [|reflexivity]. exfalso.
    apply valid_color_length in V. cbn [String.length] in V.
    rewrite !SizingSpec.append_length in V. cbn [String.length] in V. lia.
Qed.

Lemma adjustColor_short_input_witness :
  exists head, adjustColor "#fff" 0 = (head ++ "NaN")%string.
Proof.
  apply (adjustColor_short_input "#fff" 0). cbn. lia.
Defined.

End ColorSpec.

(** ** The other routes of the proxy *)

Module ProxyRoutesSpec.

Import Proxy ProxyRoutes.



Section Reimagine.

Variable base64 : list Byte.byte -> string.


(** X16: Once the request is validated, [/proxy/reimagine] and
    [/proxy/generate] turn the same upstream answer into the same answer
    of their own, except for an upstream error whose text cannot be
    read. *)
Theorem reimagine_answers_like_generate (response : FetchResponse) :
  ok response = true \/ (exists t, text response = read_ok t) ->
  on_reimagine_response base64 response = on_response base64 response.
Proof.
  intros H. unfold on_reimagine_response, on_response.
  destruct (ok response); cbn [negb]; [reflexivity|].
  destruct H as [H|[t H]]; [discriminate|]. rewrite H. reflexivity.
Qed.

End Reimagine.


Lemma reimagine_answers_like_generate_witness :
  on_reimagine_response sample_base64 png_response
  = on_response sample_base64 png_response.
Proof.
  apply (reimagine_answers_like_generate sample_base64 png_response).
  left. reflexivity.
Defined.

(** X17: [/proxy/fetch] reads the key from the header [monster-api-key] and
    not from [x-api-key]: a request that carries its key only in
    [x-api-key] is answered 401 there, whatever the upstream would say,
    while [/proxy/status] accepts it and passes an OK answer through. *)
Theorem fetch_ignores_x_api_key (req : GetRequest) (key : string) :
  header "x-api-key" (headers req) = Some key -> key <> EmptyString ->
  header "monster-api-key" (headers req) = None ->
  (forall upstream,
      fetch_route req upstream =
        mkResponse 401
          (JObject [("error"%string, JString "API key is required")])) /\
  (forall st data,
      status_route req (json_resolved (mkJsonResponse true st (read_ok data)))
      = mkResponse 200 data).
Proof.
  intros Hx Hne Hm. apply JSFacts.truthy_string_iff in Hne. split.
  - intros upstream. unfold fetch_route. rewrite Hm. reflexivity.
  - intros st data. unfold status_route. rewrite Hx. cbn [JS.truthy].
    rewrite Hne. reflexivity.
Qed.

Lemma fetch_ignores_x_api_key_witness :
  fetch_route (mkGetRequest [("x-api-key", "secret")%string] "42")
    (json_resolved (mkJsonResponse true 200 (read_ok (JBool true))))
  = mkResponse 401 (JObject [("error"%string, JString "API key is required")]).
Proof.
  apply (fetch_ignores_x_api_key
           (mkGetRequest [("x-api-key", "secret")%string] "42") "secret");
    [reflexivity|discriminate|reflexivity].
Defined.

(** X18: With the key in the header each of them reads, the two polling
    routes answer with the same status, and with the same body when the
    upstream answer is OK: the upstream JSON, unchanged.  An upstream
    answer that is OK but whose body is not JSON is answered 500. *)
Theorem polling_routes_agree (r1 r2 : GetRequest) (k1 k2 : string)
    (upstream : JsonFetch) :
  header "x-api-key" (headers r1) = Some k1 -> k1 <> EmptyString ->
  header "monster-api-key" (headers r2) = Some k2 -> k2 <> EmptyString ->
  status (status_route r1 upstream) = status (fetch_route r2 upstream) /\
  (forall r data,
      upstream = json_resolved r -> json_ok r = true ->
      json r = read_ok data ->
      status_route r1 upstream = mkResponse 200 data /\
      fetch_route r2 upstream = mkResponse 200 data) /\
  (forall r m,
      upstream = json_resolved r -> json r = read_error m ->
      status (status_route r1 upstream) = 500%Z /\
      status (fetch_route r2 upstream) = 500%Z).
Proof.
  intros H1 N1 H2 N2.
  apply JSFacts.truthy_string_iff in N1, N2.
  unfold status_route, fetch_route. rewrite H1, H2. cbn [JS.truthy].
  rewrite N1, N2. cbn [negb].
  split; [|split].
  - destruct upstream as [r|m]; [|reflexivity].
    destruct (json r); [|reflexivity]. destruct (json_ok r); reflexivity.
  - intros r data -> Hok Hj. rewrite Hj, Hok. split; reflexivity.
  - intros r m -> Hj. rewrite Hj. split; reflexivity.
Qed.

Lemma polling_routes_agree_witness :
  status (status_route (mkGetRequest [("x-api-key", "a")%string] "42")
            (json_rejected "down"))
  = status (fetch_route (mkGetRequest [("monster-api-key", "b")%string] "42")
              (json_rejected "down")).
Proof.
  apply (polling_routes_agree
           (mkGetRequest [("x-api-key", "a")%string] "42")
           (mkGetRequest [("monster-api-key", "b")%string] "42") "a" "b");
    (reflexivity || discriminate).
Defined.

End ProxyRoutesSpec.

(** ** Drawing *)

Module SketchSpec.

Import Sketch.

Lemma nth_error_last {A : Type} (l : list A) (x : A) :
  nth_error (l ++ [x]) (List.length l) = Some x.
Proof. rewrite nth_error_app2, Nat.sub_diag by lia. reflexivity. Qed.

Lemma set_nth_last {A : Type} (l : list A) (x v : A) :
  set_nth (List.length l) v (l ++ [x]) = l ++ [v].
Proof. induction l as [|h t IH]; cbn; [reflexivity|now rewrite IH]. Qed.

Lemma point_eta (p : Point) : mkPoint (pt_x p) (pt_y p) = p.
Proof. now destruct p. Qed.

(** Removing the newest node from a layer that is in order gives back the
    layer as it was. *)
Lemma destroy_last (l : list nat) (n : nat) :
  Forall (fun id => (id < n)%nat) l ->
  filter (fun c => negb (Nat.eqb c n)) (l ++ [n]) = l.
Proof.
  intros H. rewrite filter_app. cbn. rewrite Nat.eqb_refl. cbn.
  rewrite app_nil_r. apply forallb_filter_id. apply forallb_forall.
  intros c Hc. rewrite Forall_forall in H. specialize (H c Hc).
  apply negb_true_iff, Nat.eqb_neq. lia.
Qed.

Ltac tool_cases H :=
  destruct H as [H|[H|H]]; rewrite H in *.

(** *** Strokes with a shape tool *)

Lemma startDrawing_shape (tool : string) (p0 : Point) (s : State) :
  shape_tool tool -> currentTool (mode s) = tool ->
  startDrawing p0 s = shaping s p0 (pressed tool p0).
Proof.
  intros Ht Hc. unfold startDrawing, shaping, pressed. rewrite Hc.
  tool_cases Ht; cbn [String.eqb Ascii.eqb Bool.eqb andb orb];
    unfold add_node; cbn [select_nodes nodes shapeLayer transformer];
    rewrite point_eta; reflexivity.
Qed.

Lemma dragged_kind (tool : string) (p0 p : Point) :
  shape_tool tool ->
  (tool = "circle"%string /\
   exists x y rx ry, dragged tool p0 p = Ellipse x y rx ry) \/
  (tool <> "circle"%string /\
   exists x y w h, dragged tool p0 p = Rect x y w h).
Proof.
  intros Ht. unfold dragged.
  tool_cases Ht; cbn [String.eqb Ascii.eqb Bool.eqb andb];
    [left|right|right]; (split; [reflexivity || discriminate|]); eauto.
Qed.

Lemma pressed_kind (tool : string) (p0 : Point) :
  shape_tool tool ->
  (tool = "circle"%string /\
   exists x y rx ry, pressed tool p0 = Ellipse x y rx ry) \/
  (tool <> "circle"%string /\
   exists x y w h, pressed tool p0 = Rect x y w h).
Proof.
  intros Ht. unfold pressed.
  tool_cases Ht; cbn [String.eqb Ascii.eqb Bool.eqb andb];
    [left|right|right]; (split; [reflexivity || discriminate|]); eauto.
Qed.

(** A move during the stroke replaces the geometry of the new shape. *)
Lemma draw_shape (tool : string) (p0 p : Point) (s : State) (g : Geometry) :
  shape_tool tool -> currentTool (mode s) = tool ->
  (tool = "circle"%string /\ exists x y rx ry, g = Ellipse x y rx ry) \/
  (tool <> "circle"%string /\ exists x y w h, g = Rect x y w h) ->
  draw p (shaping s p0 g) = Some (shaping s p0 (dragged tool p0 p)).
Proof.
  intros Ht Hc Hk. unfold draw, shaping, dragged.
  cbn [pen mode scene isDrawing activeShape startPoint nodes negb].
  rewrite nth_error_last, Hc. cbn [geometry name].
  destruct Hk as [[-> (x & y & rx & ry & ->)]|[Hn (x & y & w & h & ->)]].
  - cbn [String.eqb Ascii.eqb Bool.eqb andb].
    unfold update_node, with_geometry.
    cbn [nodes shapeLayer transformer geometry name stroke strokeWidth
           draggable listening].
    rewrite set_nth_last. reflexivity.
  - destruct Ht as [Ht|[Ht|Ht]]; [congruence| |]; rewrite Ht;
      cbn [String.eqb Ascii.eqb Bool.eqb andb];
      unfold update_node, with_geometry;
      cbn [nodes shapeLayer transformer geometry name stroke strokeWidth
             draggable listening];
      rewrite set_nth_last; reflexivity.
Qed.

Lemma run_app (es1 es2 : list Event) (s : State) :
  run (es1 ++ es2) s =
    match run es1 s with
    | Some s' => run es2 s'
    | None => None
    end.
Proof.
  revert s. induction es1 as [|e t IH]; intros s; cbn; [reflexivity|].
  destruct (handle e s); [apply IH|reflexivity].
Qed.

Lemma stroke_geometry_snoc (tool : string) (p0 p : Point) (moves : list Point) :
  stroke_geometry tool p0 (moves ++ [p]) = dragged tool p0 p.
Proof. unfold stroke_geometry. rewrite rev_app_distr. reflexivity. Qed.

Lemma stroke_geometry_kind (tool : string) (p0 : Point) (moves : list Point) :
  shape_tool tool ->
  (tool = "circle"%string /\
   exists x y rx ry, stroke_geometry tool p0 moves = Ellipse x y rx ry) \/
  (tool <> "circle"%string /\
   exists x y w h, stroke_geometry tool p0 moves = Rect x y w h).
Proof.
  intros Ht. unfold stroke_geometry. destruct (List.rev moves).
  - now apply pressed_kind.
  - now apply dragged_kind.
Qed.

(** The moves of a stroke: only the last one shows. *)
Lemma run_moves_shape (tool : string) (p0 : Point) (s : State)
    (moves done : list Point) :
  shape_tool tool -> currentTool (mode s) = tool ->
  isNavigationMode (mode s) = false ->
  run (map mousemove moves) (shaping s p0 (stroke_geometry tool p0 done))
  = Some (shaping s p0 (stroke_geometry tool p0 (done ++ moves))).
Proof.
  intros Ht Hc Hn. revert done.
  induction moves as [|p t IH]; intros done.
  - now rewrite app_nil_r.
  - cbn [map run handle]. unfold on_move.
    cbn [shaping mode]. rewrite Hn.
    rewrite (draw_shape tool p0 p s _ Ht Hc
               (stroke_geometry_kind tool p0 done Ht)).
    rewrite <- (stroke_geometry_snoc tool p0 p done).
    rewrite (IH (done ++ [p])), <- app_assoc. reflexivity.
Qed.

(** The release. *)
Lemma stopDrawing_shape (tool : string) (p0 : Point) (s : State)
    (g : Geometry) :
  shape_tool tool -> currentTool (mode s) = tool ->
  layer_ok (scene s) ->
  (tool = "circle"%string /\ exists x y rx ry, g = Ellipse x y rx ry) \/
  (tool <> "circle"%string /\ exists x y w h, g = Rect x y w h) ->
  stopDrawing (shaping s p0 g) = Some (finished s p0 g).
Proof.
  intros Ht Hc Hl Hk. unfold stopDrawing, shaping, finished.
  cbn [pen mode scene isDrawing activeShape startPoint drawingPoints nodes
         negb].
  rewrite nth_error_last, Hc. cbn [geometry].
  destruct Hk as [[-> (x & y & rx & ry & ->)]|[Hn (x & y & w & h & ->)]].
  - cbn [String.eqb Ascii.eqb Bool.eqb andb zero_sized].
    destruct (Qeq_bool rx 0 && Qeq_bool ry 0); unfold destroy, select_nodes;
      cbn [nodes shapeLayer transformer]; [|reflexivity].
    rewrite destroy_last by exact Hl. reflexivity.
  - destruct Ht as [Ht|[Ht|Ht]]; [congruence| |]; rewrite Ht;
      cbn [String.eqb Ascii.eqb Bool.eqb andb orb zero_sized];
      (destruct (Qeq_bool w 0 || Qeq_bool h 0); unfold destroy, select_nodes;
       cbn [nodes shapeLayer transformer]; [|reflexivity];
       rewrite destroy_last by exact Hl; reflexivity).
Qed.

Lemma mode_shaping (s : State) (p0 : Point) (g : Geometry) :
  mode (shaping s p0 g) = mode s.
Proof. reflexivity. Qed.

Lemma mode_finished (s : State) (p0 : Point) (g : Geometry) :
  mode (finished s p0 g) = mode s.
Proof. reflexivity. Qed.

(** A whole stroke with a shape tool. *)
Lemma stroke_shape (tool : string) (p0 : Point) (moves : list Point)
    (s : State) :
  shape_tool tool -> currentTool (mode s) = tool ->
  isNavigationMode (mode s) = false -> layer_ok (scene s) ->
  run (stroke_events p0 moves) s
  = Some (finished s p0 (stroke_geometry tool p0 moves)).
Proof.
  intros Ht Hc Hn Hl. unfold stroke_events.
  cbn [run handle]. unfold on_down. rewrite Hn. cbn [option_map].
  unfold cursor_listener.
  rewrite (startDrawing_shape tool p0 s Ht Hc).
  rewrite mode_shaping, Hn, andb_false_r.
  change (pressed tool p0) with (stroke_geometry tool p0 []).
  rewrite run_app, (run_moves_shape tool p0 s moves [] Ht Hc Hn).
  change ([] ++ moves) with moves.
  cbn [run handle]. unfold on_up. rewrite mode_shaping, Hn.
  rewrite (stopDrawing_shape tool p0 s _ Ht Hc Hl
             (stroke_geometry_kind tool p0 moves Ht)).
  cbn [option_map]. unfold cursor_listener.
  rewrite mode_finished, Hn, andb_false_r. reflexivity.
Qed.


Lemma Math_abs_cases (q : Q) :
  (q < 0 /\ Math_abs q = - q) \/ (0 <= q /\ Math_abs q = q).
Proof.
  unfold Math_abs. destruct (JS.ltb q 0) eqn:E.
  - left. split; [now apply JSFacts.ltb_true|reflexivity].
  - right. split; [now apply JSFacts.ltb_false|reflexivity].
Qed.

Lemma Math_max_cases (a b : Q) :
  (a <= b /\ Math_max a b = b) \/ (b < a /\ Math_max a b = a).
Proof.
  unfold Math_max. destruct (Qle_bool a b) eqn:E.
  - left. split; [now apply Qle_bool_iff|reflexivity].
  - right. split; [|reflexivity]. apply Qnot_le_lt. intros H.
    apply Qle_bool_iff in H. congruence.
Qed.

Lemma layer_ok_nil (p : Pen) (m : Mode) (ns : list Node) (sel : list nat) :
  layer_ok (scene (mkState p m (mkScene ns [] sel))).
Proof. apply Forall_nil. Qed.

(** X19: a stroke with the rectangle tool that ends with the pointer at [p]
    leaves, as the newest node, the rectangle spanned by the press point
    and [p], whatever the moves before; the release takes it off the layer
    again exactly when [p] has an abscissa or an ordinate of the press
    point, and otherwise leaves it as the last child and the one selected. *)
Theorem rectangle_stroke (p0 p : Point) (moves : list Point) (s : State) :
  currentTool (mode s) = "rectangle"%string ->
  isNavigationMode (mode s) = false -> layer_ok (scene s) ->
  exists x y w h : Q,
    run (stroke_events p0 (moves ++ [p])) s
    = Some (finished s p0 (Rect x y w h)) /\
    ((x = pt_x p0 /\ x + w == pt_x p /\ pt_x p0 <= pt_x p) \/
     (x = pt_x p /\ x + w == pt_x p0 /\ pt_x p < pt_x p0)) /\
    ((y = pt_y p0 /\ y + h == pt_y p /\ pt_y p0 <= pt_y p) \/
     (y = pt_y p /\ y + h == pt_y p0 /\ pt_y p < pt_y p0)) /\
    (zero_sized (Rect x y w h) = true <->
     pt_x p == pt_x p0 \/ pt_y p == pt_y p0).
Proof.
  intros Hc Hn Hl.
  pose proof (stroke_shape "rectangle" p0 (moves ++ [p]) s
                (or_intror (or_introl eq_refl)) Hc Hn Hl) as R.
  rewrite stroke_geometry_snoc in R. unfold dragged in R.
  cbn [String.eqb Ascii.eqb Bool.eqb andb] in R.
  eexists _, _, _, _. split; [exact R|].
  set (dx := pt_x p - pt_x p0). set (dy := pt_y p - pt_y p0).
  assert (Ex : pt_x p == pt_x p0 + dx) by (unfold dx; ring).
  assert (Ey : pt_y p == pt_y p0 + dy) by (unfold dy; ring).
  cbn [zero_sized]. rewrite orb_true_iff, !Qeq_bool_iff.
  destruct (Math_abs_cases dx) as [[Hx ->]|[Hx ->]];
    destruct (Math_abs_cases dy) as [[Hy ->]|[Hy ->]];
    try rewrite (JSFacts.ltb_intro dx 0 Hx);
    try rewrite (JSFacts.ltb_elim dx 0 Hx);
    try rewrite (JSFacts.ltb_intro dy 0 Hy);
    try rewrite (JSFacts.ltb_elim dy 0 Hy);
    clearbody dx dy;
    (split; [|split; [|split]]);
    try (left; split; [reflexivity|split; lra]);
    try (right; split; [reflexivity|split; lra]);
    try (intros [H|H]; [left|right]; lra).
Qed.

Lemma rectangle_stroke_witness :
  exists x y w h : Q,
    run (stroke_events (mkPoint 10 10) ([mkPoint 20 5] ++ [mkPoint 4 30]))
      (tool_click "rectangle" initial)
    = Some (finished (tool_click "rectangle" initial) (mkPoint 10 10)
              (Rect x y w h)) /\
    ((x = 10 /\ x + w == 4 /\ 10 <= 4) \/ (x = 4 /\ x + w == 10 /\ 4 < 10)) /\
    ((y = 10 /\ y + h == 30 /\ 10 <= 30) \/
     (y = 30 /\ y + h == 10 /\ 30 < 10)) /\
    (zero_sized (Rect x y w h) = true <-> 4 == 10 \/ 30 == 10).
Proof.
  apply (rectangle_stroke (mkPoint 10 10) (mkPoint 4 30) [mkPoint 20 5]
           (tool_click "rectangle" initial));
    [reflexivity|reflexivity|apply layer_ok_nil].
Defined.

(** X20: a stroke with the square tool leaves a rectangle of equal sides,
    the side being the larger of the two distances of the pointer from the
    press point; the press point is a corner of it, the pointer lies in it
    and on its border, and the release takes it off the layer only when the
    pointer is back on the press point. *)
Theorem square_stroke (p0 p : Point) (moves : list Point) (s : State) :
  currentTool (mode s) = "square"%string ->
  isNavigationMode (mode s) = false -> layer_ok (scene s) ->
  exists x y size : Q,
    run (stroke_events p0 (moves ++ [p])) s
    = Some (finished s p0 (Rect x y size size)) /\
    0 <= size /\
    (x = pt_x p0 \/ x + size == pt_x p0) /\
    (y = pt_y p0 \/ y + size == pt_y p0) /\
    (x <= pt_x p <= x + size /\ y <= pt_y p <= y + size) /\
    (pt_x p == x \/ pt_x p == x + size \/
     pt_y p == y \/ pt_y p == y + size) /\
    (zero_sized (Rect x y size size) = true <->
     pt_x p == pt_x p0 /\ pt_y p == pt_y p0).
Proof.
  intros Hc Hn Hl.
  pose proof (stroke_shape "square" p0 (moves ++ [p]) s
                (or_intror (or_intror eq_refl)) Hc Hn Hl) as R.
  rewrite stroke_geometry_snoc in R. unfold dragged in R.
  cbn [String.eqb Ascii.eqb Bool.eqb andb] in R.
  eexists _, _, _. split; [exact R|].
  set (dx := pt_x p - pt_x p0). set (dy := pt_y p - pt_y p0).
  assert (Ex : pt_x p == pt_x p0 + dx) by (unfold dx; ring).
  assert (Ey : pt_y p == pt_y p0 + dy) by (unfold dy; ring).
  cbn [zero_sized]. rewrite orb_diag, Qeq_bool_iff.
  destruct (Math_max_cases (Math_abs dx) (Math_abs dy)) as [[Hm ->]|[Hm ->]];
    revert Hm;
    destruct (Math_abs_cases dx) as [[Hx ->]|[Hx ->]];
    destruct (Math_abs_cases dy) as [[Hy ->]|[Hy ->]];
    intros Hm;
    try rewrite (JSFacts.ltb_intro dx 0 Hx);
    try rewrite (JSFacts.ltb_elim dx 0 Hx);
    try rewrite (JSFacts.ltb_intro dy 0 Hy);
    try rewrite (JSFacts.ltb_elim dy 0 Hy);
    clearbody dx dy;
    (split; [lra|]);
    (split; [(left; reflexivity) || (right; lra)|]);
    (split; [(left; reflexivity) || (right; lra)|]);
    (split; [split; split; lra|]);
    (split; [|split; [intros H; split; lra|intros [H1 H2]; lra]]);
    first [left; lra | right; left; lra | right; right; left; lra
          | right; right; right; lra].
Qed.

Lemma square_stroke_witness :
  exists x y size : Q,
    run (stroke_events (mkPoint 10 10) ([] ++ [mkPoint 4 30]))
      (tool_click "square" initial)
    = Some (finished (tool_click "square" initial) (mkPoint 10 10)
              (Rect x y size size)) /\
    0 <= size /\
    (x = 10 \/ x + size == 10) /\
    (y = 10 \/ y + size == 10) /\
    (x <= 4 <= x + size /\ y <= 30 <= y + size) /\
    (4 == x \/ 4 == x + size \/ 30 == y \/ 30 == y + size) /\
    (zero_sized (Rect x y size size) = true <-> 4 == 10 /\ 30 == 10).
Proof.
  apply (square_stroke (mkPoint 10 10) (mkPoint 4 30) []
           (tool_click "square" initial));
    [reflexivity|reflexivity|apply layer_ok_nil].
Defined.

(** X21: a stroke with the circle tool leaves an ellipse centred on the
    press point whose radii are the two distances of the pointer from it,
    so that the pointer is a corner of the box around the ellipse; the
    release takes it off the layer only when both radii are zero, that is
    when the pointer is back on the press point. *)
Theorem circle_stroke (p0 p : Point) (moves : list Point) (s : State) :
  currentTool (mode s) = "circle"%string ->
  isNavigationMode (mode s) = false -> layer_ok (scene s) ->
  exists rx ry : Q,
    run (stroke_events p0 (moves ++ [p])) s
    = Some (finished s p0 (Ellipse (pt_x p0) (pt_y p0) rx ry)) /\
    0 <= rx /\ 0 <= ry /\
    (pt_x p == pt_x p0 + rx \/ pt_x p == pt_x p0 - rx) /\
    (pt_y p == pt_y p0 + ry \/ pt_y p == pt_y p0 - ry) /\
    (zero_sized (Ellipse (pt_x p0) (pt_y p0) rx ry) = true <->
     pt_x p == pt_x p0 /\ pt_y p == pt_y p0).
Proof.
  intros Hc Hn Hl.
  pose proof (stroke_shape "circle" p0 (moves ++ [p]) s
                (or_introl eq_refl) Hc Hn Hl) as R.
  rewrite stroke_geometry_snoc in R. unfold dragged in R.
  cbn [String.eqb Ascii.eqb Bool.eqb andb] in R.
  eexists _, _. split; [exact R|].
  set (dx := pt_x p - pt_x p0). set (dy := pt_y p - pt_y p0).
  assert (Ex : pt_x p == pt_x p0 + dx) by (unfold dx; ring).
  assert (Ey : pt_y p == pt_y p0 + dy) by (unfold dy; ring).
  cbn [zero_sized]. rewrite andb_true_iff, !Qeq_bool_iff.
  destruct (Math_abs_cases dx) as [[Hx ->]|[Hx ->]];
    destruct (Math_abs_cases dy) as [[Hy ->]|[Hy ->]];
    clearbody dx dy;
    (split; [lra|]); (split; [lra|]);
    (split; [(left; lra) || (right; lra)|]);
    (split; [(left; lra) || (right; lra)|]);
    (split; [intros [H1 H2]; split; lra|intros [H1 H2]; split; lra]).
Qed.

Lemma circle_stroke_witness :
  exists rx ry : Q,
    run (stroke_events (mkPoint 10 10) ([mkPoint 0 0] ++ [mkPoint 10 30]))
      (tool_click "circle" initial)
    = Some (finished (tool_click "circle" initial) (mkPoint 10 10)
              (Ellipse 10 10 rx ry)) /\
    0 <= rx /\ 0 <= ry /\
    (10 == 10 + rx \/ 10 == 10 - rx) /\
    (30 == 10 + ry \/ 30 == 10 - ry) /\
    (zero_sized (Ellipse 10 10 rx ry) = true <-> 10 == 10 /\ 30 == 10).
Proof.
  apply (circle_stroke (mkPoint 10 10) (mkPoint 10 30) [mkPoint 0 0]
           (tool_click "circle" initial));
    [reflexivity|reflexivity|apply layer_ok_nil].
Defined.

(** A press and a release with no move between them, with any of the
    three shape tools, leave the layer as it was: the shape made by the
    press is taken off again.  What was selected before is no longer
    selected, and the tool settings are untouched. *)
Theorem click_leaves_no_shape (tool : string) (p0 : Point) (s : State) :
  shape_tool tool -> currentTool (mode s) = tool ->
  isNavigationMode (mode s) = false -> layer_ok (scene s) ->
  exists s' : State,
    run (stroke_events p0 []) s = Some s' /\
    shapeLayer (scene s') = shapeLayer (scene s) /\
    transformer (scene s') = [] /\
    isDrawing (pen s') = false /\ activeShape (pen s') = None /\
    mode s' = mode s.
Proof.
  intros Ht Hc Hn Hl.
  rewrite (stroke_shape tool p0 [] s Ht Hc Hn Hl).
  eexists. split; [reflexivity|].
  assert (Z : zero_sized (stroke_geometry tool p0 []) = true).
  { unfold stroke_geometry, pressed. cbn [List.rev].
    destruct Ht as [ -> | [ -> | -> ] ]; reflexivity. }
  unfold finished. cbn [scene pen mode shapeLayer transformer isDrawing
                          activeShape].
  rewrite Z. repeat split.
Qed.

Lemma click_leaves_no_shape_witness :
  exists s' : State,
    run (stroke_events (mkPoint 7 9) []) (tool_click "square" initial)
    = Some s' /\
    shapeLayer (scene s') = [] /\
    transformer (scene s') = [] /\
    isDrawing (pen s') = false /\ activeShape (pen s') = None /\
    mode s' = mode (tool_click "square" initial).
Proof.
  apply (click_leaves_no_shape "square" (mkPoint 7 9)
           (tool_click "square" initial));
    [right; right; reflexivity|reflexivity|reflexivity|apply layer_ok_nil].
Defined.

(** *** Strokes with the pencil and with the eraser *)

Lemma startDrawing_pencil (p0 : Point) (s : State) :
  currentTool (mode s) = "pencil"%string ->
  startDrawing p0 s
  = pencilling s p0 [pt_x p0; pt_y p0; pt_x p0; pt_y p0].
Proof.
  intros Hc. unfold startDrawing, pencilling. rewrite Hc.
  cbn [String.eqb Ascii.eqb Bool.eqb andb orb].
  unfold add_node; cbn [select_nodes nodes shapeLayer transformer].
  rewrite point_eta. reflexivity.
Qed.

Lemma draw_pencil (p0 p : Point) (s : State) (points : list Q) :
  currentTool (mode s) = "pencil"%string ->
  draw p (pencilling s p0 points)
  = Some (pencilling s p0 (points ++ [pt_x p; pt_y p])).
Proof.
  intros Hc. unfold draw, pencilling.
  cbn [pen mode scene isDrawing activeShape startPoint drawingPoints nodes
         negb].
  rewrite nth_error_last, Hc. cbn [geometry name].
  cbn [String.eqb Ascii.eqb Bool.eqb andb].
  unfold update_node, with_geometry.
  cbn [nodes shapeLayer transformer geometry name stroke strokeWidth
         draggable listening].
  rewrite set_nth_last. reflexivity.
Qed.

Lemma coordinates_app (l1 l2 : list Point) :
  coordinates (l1 ++ l2) = coordinates l1 ++ coordinates l2.
Proof. induction l1 as [|h t IH]; cbn; [reflexivity|now rewrite IH]. Qed.

Lemma mode_pencilling (s : State) (p0 : Point) (points : list Q) :
  mode (pencilling s p0 points) = mode s.
Proof. reflexivity. Qed.

Lemma run_moves_pencil (p0 : Point) (s : State) (moves : list Point)
    (points : list Q) :
  currentTool (mode s) = "pencil"%string ->
  isNavigationMode (mode s) = false ->
  run (map mousemove moves) (pencilling s p0 points)
  = Some (pencilling s p0 (points ++ coordinates moves)).
Proof.
  intros Hc Hn. revert points.
  induction moves as [|p t IH]; intros points.
  - cbn [map run coordinates]. now rewrite app_nil_r.
  - cbn [map run handle coordinates]. unfold on_move.
    rewrite mode_pencilling, Hn, (draw_pencil p0 p s points Hc), IH.
    rewrite <- app_assoc. reflexivity.
Qed.

(** X22: a stroke with the pencil leaves one line through the press point,
    taken twice, and every point the pointer moved through, in order; the
    line is the last child of the layer, reacts to the pointer and can be
    dragged; it is the one selected when the pointer moved at least once,
    and nothing is selected when it did not; the list of points kept by
    the application is empty again. *)
Theorem pencil_stroke (p0 : Point) (moves : list Point) (s : State) :
  currentTool (mode s) = "pencil"%string ->
  isNavigationMode (mode s) = false ->
  run (stroke_events p0 moves) s
  = Some (mkState (mkPen false p0 None []) (mode s)
            (mkScene
               (nodes (scene s)
                  ++ [mkNode
                        (Line (pt_x p0 :: pt_y p0 :: pt_x p0 :: pt_y p0
                                 :: coordinates moves))
                        "shape" (currentColor (mode s))
                        (currentSize (mode s)) true true])
               (shapeLayer (scene s) ++ [List.length (nodes (scene s))])
               (match moves with
                | [] => []
                | _ :: _ => [List.length (nodes (scene s))]
                end))).
Proof.
  intros Hc Hn. unfold stroke_events.
  cbn [run handle]. unfold on_down. rewrite Hn. cbn [option_map].
  unfold cursor_listener.
  rewrite (startDrawing_pencil p0 s Hc).
  rewrite mode_pencilling, Hn, andb_false_r.
  rewrite run_app, (run_moves_pencil p0 s moves _ Hc Hn).
  cbn [run handle List.app]. unfold on_up. rewrite mode_pencilling, Hn.
  unfold stopDrawing, pencilling.
  cbn [pen mode scene isDrawing activeShape startPoint drawingPoints nodes
         negb].
  rewrite nth_error_last, Hc. cbn [geometry].
  cbn [String.eqb Ascii.eqb Bool.eqb andb orb].
  unfold update_node, select_nodes.
  cbn [nodes shapeLayer transformer geometry name stroke strokeWidth].
  rewrite set_nth_last.
  destruct moves as [|q t];
    cbn [coordinates List.app List.length Nat.ltb Nat.leb];
    cbn [option_map]; unfold cursor_listener; cbn [mode];
    rewrite Hn, andb_false_r; reflexivity.
Qed.

Lemma pencil_stroke_witness :
  run (stroke_events (mkPoint 1 2) [mkPoint 3 4; mkPoint 5 6]) initial
  = Some (mkState (mkPen false (mkPoint 1 2) None []) (mode initial)
            (mkScene
               [mkNode (Line [1; 2; 1; 2; 3; 4; 5; 6]) "shape" "#000000" 16
                  true true]
               [0%nat] [0%nat])).
Proof.
  apply (pencil_stroke (mkPoint 1 2) [mkPoint 3 4; mkPoint 5 6] initial);
    reflexivity.
Defined.

Lemma mode_erasing (s : State) (p0 : Point) :
  mode (erasing s p0) = mode s.
Proof. reflexivity. Qed.

Lemma startDrawing_eraser (p0 : Point) (s : State) :
  currentTool (mode s) = "eraser"%string ->
  startDrawing p0 s = erasing s p0.
Proof.
  intros Hc. unfold startDrawing, erasing. rewrite Hc.
  cbn [String.eqb Ascii.eqb Bool.eqb andb orb].
  unfold add_node; cbn [select_nodes nodes shapeLayer transformer].
  rewrite point_eta. reflexivity.
Qed.

(** No branch of [draw] is for the eraser. *)
Lemma draw_eraser (p0 p : Point) (s : State) :
  currentTool (mode s) = "eraser"%string ->
  draw p (erasing s p0) = Some (erasing s p0).
Proof.
  intros Hc. unfold draw.
  cbn [erasing pen mode scene isDrawing activeShape nodes negb].
  rewrite nth_error_last, Hc.
  cbn [String.eqb Ascii.eqb Bool.eqb andb orb]. reflexivity.
Qed.

Lemma run_moves_eraser (p0 : Point) (s : State) (moves : list Point) :
  currentTool (mode s) = "eraser"%string ->
  isNavigationMode (mode s) = false ->
  run (map mousemove moves) (erasing s p0) = Some (erasing s p0).
Proof.
  intros Hc Hn. induction moves as [|p t IH]; [reflexivity|].
  cbn [map run handle]. unfold on_move.
  rewrite mode_erasing, Hn, (draw_eraser p0 p s Hc). exact IH.
Qed.

(** X23: a stroke with the eraser leaves a line of the single press point,
    whatever the moves: no move adds a point to it.  The line is named
    eraser, is white, is the last child of the layer and is not selected;
    the selection is empty after the stroke. *)
Theorem eraser_stroke (p0 : Point) (moves : list Point) (s : State) :
  currentTool (mode s) = "eraser"%string ->
  isNavigationMode (mode s) = false ->
  run (stroke_events p0 moves) s
  = Some (mkState (mkPen false p0 None (drawingPoints (pen s))) (mode s)
            (mkScene
               (nodes (scene s)
                  ++ [mkNode (Line [pt_x p0; pt_y p0]) "eraser" "white"
                        (currentSize (mode s)) false true])
               (shapeLayer (scene s) ++ [List.length (nodes (scene s))])
               [])).
Proof.
  intros Hc Hn. unfold stroke_events.
  cbn [run handle]. unfold on_down. rewrite Hn. cbn [option_map].
  unfold cursor_listener.
  rewrite (startDrawing_eraser p0 s Hc).
  rewrite mode_erasing, Hn, andb_false_r.
  rewrite run_app, (run_moves_eraser p0 s moves Hc Hn).
  cbn [run handle List.app]. unfold on_up. rewrite mode_erasing, Hn.
  unfold stopDrawing, erasing.
  cbn [pen mode scene isDrawing activeShape startPoint drawingPoints nodes
         negb].
  rewrite nth_error_last, Hc.
  cbn [String.eqb Ascii.eqb Bool.eqb andb orb negb].
  cbn [option_map]. unfold cursor_listener. cbn [mode].
  rewrite Hn, andb_false_r. reflexivity.
Qed.

Lemma eraser_stroke_witness :
  run (stroke_events (mkPoint 1 2) [mkPoint 3 4; mkPoint 5 6])
    (tool_click "eraser" initial)
  = Some (mkState (mkPen false (mkPoint 1 2) None [])
            (mode (tool_click "eraser" initial))
            (mkScene [mkNode (Line [1; 2]) "eraser" "white" 16 false true]
               [0%nat] [])).
Proof.
  apply (eraser_stroke (mkPoint 1 2) [mkPoint 3 4; mkPoint 5 6]
           (tool_click "eraser" initial)); reflexivity.
Defined.

(** *** Navigation mode *)

Lemma cursor_listener_keeps (c : string) (s : State) :
  pen (cursor_listener c s) = pen s /\
  scene (cursor_listener c s) = scene s /\
  isNavigationMode (mode (cursor_listener c s)) = isNavigationMode (mode s) /\
  currentTool (mode (cursor_listener c s)) = currentTool (mode s) /\
  stageDraggable (mode (cursor_listener c s)) = stageDraggable (mode s) /\
  navigationEventsAttached (mode (cursor_listener c s))
  = navigationEventsAttached (mode s) /\
  cursorListeners (mode (cursor_listener c s)) = cursorListeners (mode s).
Proof.
  unfold cursor_listener.
  destruct ((0 <? cursorListeners (mode s))%nat && isNavigationMode (mode s));
    repeat split.
Qed.

(** X24: in navigation mode the pointer draws nothing: whatever presses,
    moves and releases arrive, on the stage or on a node, every one is
    handled, and the pen, the nodes, the layer and the selection stay as
    they were; the application stays in navigation mode with the same
    tool.  This is about the listeners of the application: the dragging of
    the stage that Konva does by itself is not part of the model. *)
Theorem navigation_ignores_pointer (es : list Event) (s : State) :
  isNavigationMode (mode s) = true ->
  forallb pointer_event es = true ->
  exists s' : State,
    run es s = Some s' /\
    pen s' = pen s /\ scene s' = scene s /\
    isNavigationMode (mode s') = true /\
    currentTool (mode s') = currentTool (mode s).
Proof.
  intros Hn Hp. revert s Hn.
  induction es as [|e t IH]; intros s Hn.
  - exists s. repeat split. exact Hn.
  - cbn [forallb] in Hp. apply andb_true_iff in Hp as [He Ht].
    assert (H1 : exists s1, handle e s = Some s1 /\
                   pen s1 = pen s /\ scene s1 = scene s /\
                   isNavigationMode (mode s1) = true /\
                   currentTool (mode s1) = currentTool (mode s)).
    { destruct e; try discriminate He;
        cbn [handle]; unfold on_down, on_move, on_up; rewrite Hn;
        cbn [option_map];
        try (exists s; repeat split; exact Hn);
        (eexists; split; [reflexivity|]);
        match goal with
        | |- context [cursor_listener ?c s] =>
            destruct (cursor_listener_keeps c s)
              as (K1 & K2 & K3 & K4 & _)
        end;
        rewrite K1, K2, K3, K4; repeat split; exact Hn. }
    destruct H1 as (s1 & E1 & P1 & S1 & N1 & T1).
    destruct (IH Ht s1 N1) as (s' & E' & P' & S' & N' & T').
    exists s'. cbn [run]. rewrite E1.
    repeat split; congruence.
Qed.

Lemma navigation_ignores_pointer_witness :
  exists s' : State,
    run (stroke_events (mkPoint 1 2) [mkPoint 3 4])
      (tool_click "navigation" initial) = Some s' /\
    pen s' = pen initial /\ scene s' = scene initial /\
    isNavigationMode (mode s') = true /\
    currentTool (mode s') = "navigation"%string.
Proof.
  apply (navigation_ignores_pointer (stroke_events (mkPoint 1 2) [mkPoint 3 4])
           (tool_click "navigation" initial)); reflexivity.
Defined.




(** *** The delete key *)

Lemma destroy_all (sel : list nat) (sc : Scene) :
  nodes (fold_left (fun sc id => destroy id sc) sel sc) = nodes sc /\
  transformer (fold_left (fun sc id => destroy id sc) sel sc)
  = transformer sc /\
  shapeLayer (fold_left (fun sc id => destroy id sc) sel sc)
  = filter (fun c => negb (existsb (Nat.eqb c) sel)) (shapeLayer sc).
Proof.
  revert sc. induction sel as [|id t IH]; intros sc; cbn [fold_left existsb].
  - repeat split. cbn [negb]. symmetry. apply forallb_filter_id.
    apply forallb_forall. reflexivity.
  - destruct (IH (destroy id sc)) as (N & T & L).
    rewrite N, T, L. repeat split.
    unfold destroy. cbn [shapeLayer].
    induction (shapeLayer sc) as [|c l IHl]; [reflexivity|].
    cbn [filter]. destruct (Nat.eqb c id); cbn [negb orb].
    + exact IHl.
    + cbn [filter]. destruct (existsb (Nat.eqb c) t); cbn [negb];
        [exact IHl|now rewrite IHl].
Qed.

(** X26: the Delete key and the Backspace key, when no text is being edited,
    take off the layer exactly the selected nodes, the other children
    keeping their order, and empty the selection; pen and tool settings
    stay.  While a text is edited the same keys change nothing. *)
Theorem delete_key_removes_selection (key : string) (s : State) :
  key = "Delete"%string \/ key = "Backspace"%string ->
  let s' := handleKeyDown key false s in
  shapeLayer (scene s')
  = filter (fun c => negb (existsb (Nat.eqb c) (transformer (scene s))))
      (shapeLayer (scene s)) /\
  transformer (scene s') = [] /\
  nodes (scene s') = nodes (scene s) /\
  pen s' = pen s /\ mode s' = mode s /\
  handleKeyDown key true s = s.
Proof.
  intros Hk. cbv zeta. unfold handleKeyDown.
  assert (K : String.eqb key "Delete" || String.eqb key "Backspace" = true).
  { destruct Hk as [ -> | -> ]; reflexivity. }
  rewrite K. cbn [andb].
  destruct (transformer (scene s)) as [|id t] eqn:E.
  - cbn [List.length Nat.ltb Nat.leb existsb negb]. rewrite E.
    repeat split. symmetry. apply forallb_filter_id.
    apply forallb_forall. reflexivity.
  - cbn [List.length Nat.ltb Nat.leb].
    destruct (destroy_all (id :: t) (scene s)) as (N & T & L).
    unfold select_nodes. cbn [scene pen mode nodes shapeLayer transformer].
    rewrite N, L. repeat split.
Qed.

Lemma delete_key_removes_selection_witness :
  let s := mkState (mkPen false (mkPoint 1 2) None []) (mode initial)
             (mkScene
                [mkNode (Line [1; 2; 1; 2; 3; 4]) "shape" "#000000" 16 true
                   true;
                 mkNode (Rect 5 5 10 10) "shape" "#000000" 16 true true]
                [0; 1]%nat [1%nat]) in
  let s' := handleKeyDown "Backspace" false s in
  shapeLayer (scene s') = [0%nat] /\
  transformer (scene s') = [] /\
  nodes (scene s') = nodes (scene s) /\
  pen s' = pen s /\ mode s' = mode s /\
  handleKeyDown "Backspace" true s = s.
Proof.
  apply (delete_key_removes_selection "Backspace"
           (mkState (mkPen false (mkPoint 1 2) None []) (mode initial)
              (mkScene
                 [mkNode (Line [1; 2; 1; 2; 3; 4]) "shape" "#000000" 16 true
                    true;
                  mkNode (Rect 5 5 10 10) "shape" "#000000" 16 true true]
                 [0; 1]%nat [1%nat]))).
  right. reflexivity.
Defined.

(** X27: drawing a shape and pressing Delete right after gives back the
    layer as it was before the stroke, with nothing selected: a shape of
    some size is selected by the release and so is the one deleted, and a
    shape of no size was already taken off by the release. *)
Theorem stroke_then_delete (tool : string) (p0 : Point) (moves : list Point)
    (s : State) :
  shape_tool tool -> currentTool (mode s) = tool ->
  isNavigationMode (mode s) = false -> layer_ok (scene s) ->
  exists s' : State,
    run (stroke_events p0 moves ++ [keydown "Delete" false]) s = Some s' /\
    shapeLayer (scene s') = shapeLayer (scene s) /\
    transformer (scene s') = [] /\
    mode s' = mode s.
Proof.
  intros Ht Hc Hn Hl.
  rewrite run_app, (stroke_shape tool p0 moves s Ht Hc Hn Hl).
  cbn [run handle]. eexists. split; [reflexivity|].
  unfold handleKeyDown, finished.
  cbn [String.eqb Ascii.eqb Bool.eqb andb orb scene transformer].
  destruct (zero_sized (stroke_geometry tool p0 moves)).
  - cbn [List.length Nat.ltb Nat.leb scene shapeLayer transformer mode].
    repeat split.
  - cbn [List.length Nat.ltb Nat.leb fold_left].
    unfold destroy, select_nodes.
    cbn [scene shapeLayer transformer mode nodes].
    rewrite destroy_last by exact Hl. repeat split.
Qed.

Lemma stroke_then_delete_witness :
  exists s' : State,
    run (stroke_events (mkPoint 1 2) [mkPoint 30 40]
           ++ [keydown "Delete" false])
      (tool_click "circle" initial) = Some s' /\
    shapeLayer (scene s') = [] /\
    transformer (scene s') = [] /\
    mode s' = mode (tool_click "circle" initial).
Proof.
  apply (stroke_then_delete "circle" (mkPoint 1 2) [mkPoint 30 40]
           (tool_click "circle" initial));
    [left; reflexivity|reflexivity|reflexivity|apply layer_ok_nil].
Defined.

End SketchSpec.

(** ** The client of the proxy *)

Module ClientSpec.

Import Client.

Section Laws.

Variable type_error_message : string -> string.
Variable syntax_error_message : string -> string.
Variable ToString : Value -> Try string.
Variable createAdvancedMockImage :
  Z -> Z -> string -> string -> string -> Z -> Try string.

#[local] Abbreviation new_image' := (new_image ToString).
#[local] Abbreviation additional' :=
  (additional type_error_message syntax_error_message ToString).
#[local] Abbreviation generate_first' := (generate_first type_error_message ToString).
#[local] Abbreviation reimagine_first' :=
  (reimagine_first type_error_message syntax_error_message ToString).
#[local] Abbreviation generateMockImages' := (generateMockImages createAdvancedMockImage).
#[local] Abbreviation generateImages' :=
  (generateImages type_error_message syntax_error_message ToString
     createAdvancedMockImage).
#[local] Abbreviation reimagineImage' :=
  (reimagineImage type_error_message syntax_error_message ToString
     createAdvancedMockImage).

Lemma bind_returned {A B : Type} (t : Try A) (k : A -> Try B) (b : B) :
  bind t k = returned b -> exists a, t = returned a /\ k a = returned b.
Proof. destruct t as [a|m]; [eauto|discriminate]. Qed.

Lemma new_image_returned (id : string) (image : Value) (i : GeneratedImage) :
  new_image' id image = returned i -> gen_id i = id /\ sized i.
Proof.
  unfold new_image. intros H. apply bind_returned in H as (s & _ & [= <-]).
  repeat split.
Qed.

Lemma additional_returned (id : string) (f : Fetched)
    (l : list GeneratedImage) :
  additional' id f = returned l ->
  l = [] \/ exists i, l = [i] /\ gen_id i = id /\ sized i.
Proof.
  unfold additional. destruct f as [response|m]; [|discriminate].
  destruct (ok response); [|intros [= <-]; now left].
  intros H. apply bind_returned in H as (data & _ & H).
  apply bind_returned in H as (success & _ & H).
  destruct (truthy success); [|injection H as <-; now left].
  apply bind_returned in H as (image & _ & H).
  destruct (truthy image); [|injection H as <-; now left].
  apply bind_returned in H as (i & Hi & [= <-]).
  right. exists i. split; [reflexivity|].
  exact (new_image_returned id image i Hi).
Qed.

Lemma generate_first_returned (f : Fetched) (i : GeneratedImage) :
  generate_first' f = returned i -> gen_id i = "1"%string /\ sized i.
Proof.
  unfold generate_first. destruct f as [response|m]; [|discriminate].
  intros H. apply bind_returned in H as (responseText & _ & H).
  destruct (parsed response) as [responseData|]; [|discriminate].
  assert (G : forall v,
             (error <- read type_error_message "error" v ;;
              if negb (ok response) || truthy error
              then
                (m <- template ToString
                        (if truthy error then error
                         else str ("API request failed: "
                                     ++ JS.number_to_string (status response))) ;;
                 thrown m)
              else
                (success <- read type_error_message "success" v ;;
                 if negb (truthy success)
                 then thrown "No image returned from API"%string
                 else
                   (image <- read type_error_message "image" v ;;
                    if negb (truthy image)
                    then thrown "No image returned from API"%string
                    else new_image' "1" image))) = returned i ->
             gen_id i = "1"%string /\ sized i).
  { intros v K. apply bind_returned in K as (error & _ & K).
    destruct (negb (ok response) || truthy error).
    - apply bind_returned in K as (m & _ & K). discriminate.
    - apply bind_returned in K as (success & _ & K).
      destruct (negb (truthy success)); [discriminate|].
      apply bind_returned in K as (image & _ & K).
      destruct (negb (truthy image)); [discriminate|].
      exact (new_image_returned _ _ _ K). }
  destruct responseData; try discriminate; exact (G _ H).
Qed.

Lemma reimagine_first_returned (f : Fetched) (i : GeneratedImage) :
  reimagine_first' f = returned i -> gen_id i = "1"%string /\ sized i.
Proof.
  unfold reimagine_first. destruct f as [response|m]; [|discriminate].
  destruct (negb (ok response)); intros H.
  - apply bind_returned in H as (errorData & _ & H).
    apply bind_returned in H as (details & _ & H).
    apply bind_returned in H as (v & _ & H).
    apply bind_returned in H as (s & _ & H). discriminate.
  - apply bind_returned in H as (data & _ & H).
    apply bind_returned in H as (success & _ & H).
    destruct (negb (truthy success)); [discriminate|].
    apply bind_returned in H as (image & _ & H).
    destruct (negb (truthy image)); [discriminate|].
    exact (new_image_returned _ _ _ H).
Qed.

Lemma generateMockImages_returned (prompt : string)
    (l : list GeneratedImage) :
  generateMockImages' prompt = returned l ->
  map gen_id l = ["1"; "2"; "3"]%string /\ Forall sized l.
Proof.
  unfold generateMockImages, colors. cbn [mock_from]. intros H.
  apply bind_returned in H as (u1 & _ & H).
  apply bind_returned in H as (l1 & H1 & [= <-]).
  apply bind_returned in H1 as (u2 & _ & H1).
  apply bind_returned in H1 as (l2 & H2 & [= <-]).
  apply bind_returned in H2 as (u3 & _ & H2).
  apply bind_returned in H2 as (l3 & [= <-] & [= <-]).
  split; [reflexivity|].
  repeat (apply Forall_cons || apply Forall_nil); split; reflexivity.
Qed.

Lemma fallback_shape (prompt message outer : string) :
  let o := fallback createAdvancedMockImage prompt message outer in
  (generateMockImages' prompt = returned (generatedImages o) /\
   alerts o = [("Error: " ++ message)%string]) \/
  (generatedImages o = [] /\
   alerts o = [("Error: " ++ message)%string; outer]).
Proof.
  cbv zeta. unfold fallback.
  destruct (generateMockImages' prompt) as [l|m]; [left|right];
    split; reflexivity.
Qed.

(** X28: whatever the three answers are, [generateImages] leaves at most
    three images, all of 512 by 512, whose ids are 1, 2 and 3 in this
    order with 2 or 3 possibly missing, or no image at all; it leaves no
    image only after two alerts, and an image of the first answer is never
    left without being the first. *)
Theorem generateImages_gives_at_most_three (prompt : string)
    (f1 f2 f3 : Fetched) :
  let o := generateImages' prompt f1 f2 f3 in
  In (map gen_id (generatedImages o))
    [[]; ["1"]; ["1"; "2"]; ["1"; "3"]; ["1"; "2"; "3"]]%string /\
  Forall sized (generatedImages o) /\
  (generatedImages o = [] -> List.length (alerts o) = 2%nat) /\
  (List.length (alerts o) <= 2)%nat.
Proof.
  cbv zeta. unfold generateImages.
  destruct (generate_first' f1) as [image1|m] eqn:E1.
  - destruct (generate_first_returned f1 image1 E1) as [I1 S1].
    destruct (additional' "2" f2) as [l2|m2] eqn:E2.
    + destruct (additional_returned "2" f2 l2 E2)
        as [->|(i2 & -> & I2 & S2)];
        destruct (additional' "3" f3) as [l3|m3] eqn:E3;
        try (destruct (additional_returned "3" f3 l3 E3)
              as [->|(i3 & -> & I3 & S3)]);
        cbn [generatedImages alerts map List.app List.length];
        rewrite ?I1, ?I2, ?I3;
        (split; [cbn; tauto|]);
        (split; [repeat (apply Forall_cons || apply Forall_nil); assumption|]);
        (split; [discriminate|lia]).
    + cbn [generatedImages alerts map List.length]. rewrite I1.
      split; [cbn; tauto|]. split; [repeat (apply Forall_cons || apply Forall_nil); assumption|].
      split; [discriminate|lia].
  - destruct (fallback_shape prompt m
                "Failed to generate images. Please try again.")
      as [[G A]|[G A]]; rewrite A.
    + destruct (generateMockImages_returned prompt _ G) as [Ids Sz].
      rewrite Ids. split; [cbn; tauto|]. split; [exact Sz|].
      split; [|cbn; lia]. intros K. rewrite K in Ids. discriminate.
    + rewrite G. split; [cbn; tauto|]. split; [constructor|].
      split; [reflexivity|cbn; lia].
Qed.

(** X29: once the first answer of [generateImages] has given an image, no
    later answer can take it away or raise an alert: the image stays the
    first one; and when the second request is rejected the image is the
    only one, whatever the third answer would have been. *)
Theorem generateImages_keeps_first_image (prompt : string)
    (f1 f2 f3 : Fetched) (image1 : GeneratedImage) :
  generate_first' f1 = returned image1 ->
  let o := generateImages' prompt f1 f2 f3 in
  alerts o = [] /\
  hd_error (generatedImages o) = Some image1 /\
  (forall m, f2 = rejected m -> generatedImages o = [image1]).
Proof.
  intros E1. cbv zeta. unfold generateImages. rewrite E1.
  destruct (additional' "2" f2) as [l2|m2] eqn:E2.
  - destruct (additional' "3" f3) as [l3|m3];
      (split; [reflexivity|]); (split; [reflexivity|]);
      intros m ->; discriminate E2.
  - repeat split.
Qed.

(** X30: [reimagineImage], with a file chosen that the browser can resize,
    is all or nothing: either the three answers all went through, there is
    no alert and the images are those of the answers, or there is an alert
    and the images are the three mock images, or none when the mock images
    cannot be drawn.  An image of the first answer is lost when a later
    request fails, unlike in [generateImages]. *)
Theorem reimagineImage_all_or_nothing (env : Sizing.Browser)
    (previous : list GeneratedImage) (f1 f2 f3 : Fetched) :
  (forall m, Sizing.resizeImageFile env 1024 1024 <> Sizing.reject m) ->
  let o := reimagineImage' true env previous f1 f2 f3 in
  (alerts o = [] /\
   exists i1 l2 l3,
     reimagine_first' f1 = returned i1 /\
     additional' "2" f2 = returned l2 /\
     additional' "3" f3 = returned l3 /\
     generatedImages o = i1 :: l2 ++ l3) \/
  (alerts o <> [] /\
   ((exists m, reimagine_first' f1 = thrown m) \/
    (exists m, additional' "2" f2 = thrown m) \/
    (exists m, additional' "3" f3 = thrown m)) /\
   (generatedImages o = [] \/
    generateMockImages' "Reimagined image" = returned (generatedImages o))).
Proof.
  intros Hr. cbv zeta. unfold reimagineImage. cbn [negb].
  assert (K : forall o1 : Outcome,
             match Sizing.resizeImageFile env 1024 1024 with
             | Sizing.reject _ =>
                 mkOutcome []
                   ["Failed to reimagine image. Please try again."%string]
             | _ => o1
             end = o1).
  { intros o1. destruct (Sizing.resizeImageFile env 1024 1024) eqn:E;
      [reflexivity|reflexivity|]. now destruct (Hr message). }
  rewrite K. unfold bind.
  destruct (reimagine_first' f1) as [i1|m1].
  - destruct (additional' "2" f2) as [l2|m2].
    + destruct (additional' "3" f3) as [l3|m3].
      * left. split; [reflexivity|]. now exists i1, l2, l3.
      * right.
        destruct (fallback_shape "Reimagined image" m3
                    "Failed to reimagine image. Please try again.")
          as [[G A]|[G A]]; rewrite A;
          (split; [discriminate|]); (split; [eauto|]); auto.
    + right.
      destruct (fallback_shape "Reimagined image" m2
                  "Failed to reimagine image. Please try again.")
        as [[G A]|[G A]]; rewrite A;
        (split; [discriminate|]); (split; [eauto|]); auto.
  - right.
    destruct (fallback_shape "Reimagined image" m1
                "Failed to reimagine image. Please try again.")
      as [[G A]|[G A]]; rewrite A;
      (split; [discriminate|]); (split; [eauto|]); auto.
Qed.

End Laws.

Lemma generateImages_keeps_first_image_witness :
  let o := generateImages engine_type_error engine_syntax_error
             engine_ToString canvas_mock "a cat"
             (reply_with_image "QUJD") (rejected "Failed to fetch")
             (reply_with_image "REVG") in
  alerts o = [] /\
  hd_error (generatedImages o)
  = Some (mkGeneratedImage "1" "data:image/png;base64,QUJD" 512 512) /\
  (forall m, rejected "Failed to fetch" = rejected m ->
             generatedImages o
             = [mkGeneratedImage "1" "data:image/png;base64,QUJD" 512 512]).
Proof.
  apply (generateImages_keeps_first_image engine_type_error
           engine_syntax_error engine_ToString canvas_mock "a cat"
           (reply_with_image "QUJD") (rejected "Failed to fetch")
           (reply_with_image "REVG")).
  reflexivity.
Defined.

Lemma reimagineImage_all_or_nothing_witness :
  let o := reimagineImage engine_type_error engine_syntax_error
             engine_ToString canvas_mock true browser_small_image []
             (reply_with_image "QUJD") (rejected "Failed to fetch")
             (reply_with_image "REVG") in
  (alerts o = [] /\
   exists i1 l2 l3,
     reimagine_first engine_type_error engine_syntax_error engine_ToString
       (reply_with_image "QUJD") = returned i1 /\
     additional engine_type_error engine_syntax_error engine_ToString "2"
       (rejected "Failed to fetch") = returned l2 /\
     additional engine_type_error engine_syntax_error engine_ToString "3"
       (reply_with_image "REVG") = returned l3 /\
     generatedImages o = i1 :: l2 ++ l3) \/
  (alerts o <> [] /\
   ((exists m,
       reimagine_first engine_type_error engine_syntax_error engine_ToString
         (reply_with_image "QUJD") = thrown m) \/
    (exists m,
       additional engine_type_error engine_syntax_error engine_ToString "2"
         (rejected "Failed to fetch") = thrown m) \/
    (exists m,
       additional engine_type_error engine_syntax_error engine_ToString "3"
         (reply_with_image "REVG") = thrown m)) /\
   (generatedImages o = [] \/
    generateMockImages canvas_mock "Reimagined image"
    = returned (generatedImages o))).
Proof.
  apply (reimagineImage_all_or_nothing engine_type_error engine_syntax_error
           engine_ToString canvas_mock browser_small_image []
           (reply_with_image "QUJD") (rejected "Failed to fetch")
           (reply_with_image "REVG")).
  intros m. discriminate.
Defined.

End ClientSpec.
